(** * osu-anticheat: replay alignment, resampling and comparison

    A shallow embedding of [replay.py], [comparer.py] and
    [investigator.py].  Python lists are Rocq lists, the [(t, x, y)]
    tuples are triples, exceptions are an explicit result type, and
    the arithmetic of the duck-typed numbers is an interface
    ([Number]) of which the structural results assume nothing.  A
    result that depends on what the arithmetic computes names the
    numbers it is about: every number type that meets the conditions
    it states, the number types that hold integers exactly
    ([exact_integers]), fractions ([Qc_Number]), or binary64 floats
    ([float_Number]) on given data. *)

From Stdlib Require Import List ZArith Bool Lia String.
From Stdlib Require Import QArith Qcanon Qcabs Qround Lqa.
From Stdlib Require Import Sorted Permutation.
From Stdlib Require Import Floats.
Import ListNotations.

Close Scope Qc_scope.
Close Scope Q_scope.
Open Scope list_scope.

Set Implicit Arguments.

(** ** Python run-time model *)

Inductive exn : Type :=
  | IndexError
  | StopIteration
  | ZeroDivisionError
  | ValueError.

(** The outcome of running a piece of Python: a value, a raised
    exception, or a loop that is still running when the fuel is out. *)
Inductive result (A : Type) : Type :=
  | Ok (a : A)
  | Raise (e : exn)
  | Diverge.

Arguments Raise {A} e.
Arguments Diverge {A}.

Definition bind {A B : Type} (r : result A) (k : A -> result B) : result B :=
  match r with
  | Ok a => k a
  | Raise e => Raise e
  | Diverge => Diverge
  end.

Definition fmap {A B : Type} (f : A -> B) (r : result A) : result B :=
  bind r (fun a => Ok (f a)).

Notation "x <- c ;; k" := (bind c (fun x => k))
  (at level 61, c at next level, right associativity).

Definition len {A : Type} (l : list A) : Z := Z.of_nat (List.length l).

(** [l[i]] with Python's negative indices. *)
Definition getitem {A : Type} (l : list A) (i : Z) : result A :=
  let k := (if i <? 0 then i + len l else i)%Z in
  if (k <? 0)%Z then Raise IndexError
  else match nth_error l (Z.to_nat k) with
       | Some a => Ok a
       | None => Raise IndexError
       end.

(** [l[k:]] with Python's clamping of the start index. *)
Definition slice_from {A : Type} (l : list A) (k : Z) : list A :=
  let start := (if k <? 0 then Z.max (k + len l) 0 else k)%Z in
  skipn (Z.to_nat start) l.

(** [next(i for (i, p) in enumerate(l) if test p)]. *)
Fixpoint next_index {A : Type} (test : A -> bool) (l : list A) : result nat :=
  match l with
  | [] => Raise StopIteration
  | p :: l' => if test p then Ok O else fmap S (next_index test l')
  end.

(** ** Numbers

    The operations the code applies to timestamps and coordinates.
    No law is assumed of them here.  They are total: what Python or
    [numpy] refuses besides a zero divisor (a quotient of integers
    too large for a float, an overflow under
    [np.seterr(all='raise')]) has no counterpart, so a result that
    says a call returns speaks of runs whose arithmetic raises
    nothing. *)

Class Number (T : Type) : Type := {
    of_Z : Z -> T;
    add : T -> T -> T;
    sub : T -> T -> T;
    mul : T -> T -> T;
    div : T -> T -> T;
    ltb : T -> T -> bool;
    eqb : T -> T -> bool;
    abs : T -> T
  }.

Declare Scope num_scope.
Delimit Scope num_scope with num.
Notation "x + y" := (add x y) : num_scope.
Notation "x - y" := (sub x y) : num_scope.
Notation "x * y" := (mul x y) : num_scope.
Notation "x <? y" := (ltb x y) : num_scope.
Notation "x >? y" := (ltb y x) : num_scope.
Notation "x =? y" := (eqb x y) : num_scope.
Notation "# z" := (of_Z z) (at level 5, format "# z") : num_scope.

(** [x / y]: Python raises on a zero divisor. *)
Definition pydiv {T : Type} {N : Number T} (x y : T) : result T :=
  if eqb y (of_Z 0) then Raise ZeroDivisionError else Ok (div x y).

(** The canonical rationals as numbers: Python's [Fraction], whose
    arithmetic is exact. *)
#[export] Instance Qc_Number : Number Qc := {
    of_Z := fun z => Q2Qc (inject_Z z);
    add := Qcplus;
    sub := Qcminus;
    mul := Qcmult;
    div := Qcdiv;
    ltb := fun a b => match Qccompare a b with Lt => true | _ => false end;
    eqb := fun a b => match Qccompare a b with Eq => true | _ => false end;
    abs := Qcabs
  }.

(** [float(z)]: the binary64 float nearest to an integer. *)
Definition float_of_Z (z : Z) : PrimFloat.float :=
  FloatOps.SF2Prim
    (SpecFloat.binary_normalize FloatOps.prec FloatOps.emax z 0 false).

(** Binary64 floats as numbers: Python's [float], whose every
    operation rounds its result to the nearest float. *)
#[export] Instance float_Number : Number PrimFloat.float := {
    of_Z := float_of_Z;
    add := PrimFloat.add;
    sub := PrimFloat.sub;
    mul := PrimFloat.mul;
    div := PrimFloat.div;
    ltb := PrimFloat.ltb;
    eqb := PrimFloat.eqb;
    abs := PrimFloat.abs
  }.

(** ** Samples *)

Section Samples.
Context {T : Type} {N : Number T}.

(** A [(t, x, y)] tuple. *)
Definition sample : Type := T * T * T.

(** [p[0]] *)
Definition time (p : sample) : T := fst (fst p).

(** [p[1:]] *)
Definition coords (p : sample) : T * T := (snd (fst p), snd p).

(** [(t, *c)] *)
Definition at_time (t : T) (c : T * T) : sample := (t, fst c, snd c).

(** A [(t, x, y)] tuple whose time is an integer number of
    milliseconds. *)
Definition stamped : Type := Z * T * T.

(** [p[0]] of such a tuple. *)
Definition tick (p : stamped) : Z := fst (fst p).

(** [p[1:]] of such a tuple. *)
Definition position (p : stamped) : T * T := (snd (fst p), snd p).

(** The tuple as the rest of the code sees it, its time a number
    like any other. *)
Definition as_sample (p : stamped) : sample :=
  (of_Z (tick p), snd (fst p), snd p).
End Samples.

Arguments sample T : clear implicits.
Arguments stamped T : clear implicits.

(** ** [class Interpolation] *)

Module Interpolation.
Section Interpolation.
Context {T : Type} {N : Number T}.
Local Open Scope num_scope.

Definition linear (x1 x2 : T * T) (r : T) : T * T :=
  ((#1 - r) * fst x1 + r * fst x2, (#1 - r) * snd x1 + r * snd x2).

Definition before (x1 x2 : T * T) (r : T) : T * T := x2.
End Interpolation.
End Interpolation.

(** ** [class Replay] *)

Module Replay.
Section Replay.
Context {T : Type} {N : Number T}.
Local Open Scope num_scope.

Definition interpolation_fn : Type := T * T -> T * T -> T -> T * T.

(** *** [Replay.interpolate] *)

(** First swap: [data1] becomes the sequence that does not start
    later.  Returns the flag with the two sequences. *)
Definition orient (data1 data2 : list (sample T))
  : result (bool * list (sample T) * list (sample T)) :=
  a <- getitem data1 0 ;;
  b <- getitem data2 0 ;;
  if time a >? time b then Ok (true, data2, data1)
  else Ok (false, data1, data2).

(** The index [i] of the first sample of [data1] after the first
    timestamp of [data2]. *)
Definition head_index (data1 data2 : list (sample T)) : result nat :=
  b <- getitem data2 0 ;;
  next_index (fun p => time p >? time b) data1.

(** [data1[i:] if len(data1) < len(data2) else data1[i - 1:]] *)
Definition head_trim (data1 data2 : list (sample T)) (i : nat)
  : list (sample T) :=
  if (len data1 <? len data2)%Z then slice_from data1 (Z.of_nat i)
  else slice_from data1 (Z.of_nat i - 1).

(** Second swap: the shorter sequence drives the sweep. *)
Definition reorient (flipped : bool) (data1 data2 : list (sample T))
  : bool * list (sample T) * list (sample T) :=
  if (len data1 >? len data2)%Z then (negb flipped, data2, data1)
  else (flipped, data1, data2).

(** [while j < len(data2) - 1 and data2[j][0] < between[0]: j += 1];
    [k] is the distance from [j] to the last index. *)
Fixpoint advance (data2 : list (sample T)) (tb : T) (k j : nat)
  : result nat :=
  match k with
  | O => Ok j
  | S k' =>
      p <- getitem data2 (Z.of_nat j) ;;
      if time p <? tb then advance data2 tb k' (S j) else Ok j
  end.

Definition advance_cursor (data2 : list (sample T)) (tb : T) (j : nat)
  : result nat :=
  advance data2 tb (Z.to_nat (len data2 - 1 - Z.of_nat j)) j.

(** The [for between in data1] loop, with the cursor [j] and the two
    lists it appends to. *)
Fixpoint sweep (interpolation : interpolation_fn)
    (data2 data1 : list (sample T)) (j : nat)
    (clean inter : list (sample T))
  : result (list (sample T) * list (sample T)) :=
  match data1 with
  | [] => Ok (clean, inter)
  | between :: rest =>
      let clean := clean ++ [between] in
      j <- advance_cursor data2 (time between) j ;;
      if (Z.of_nat j =? len data2 - 1)%Z then Ok (clean, inter)
      else
        before <- getitem data2 (Z.of_nat j) ;;
        after <- getitem data2 (Z.of_nat j + 1) ;;
        let dt1 := time between - time before in
        let dt2 := time after - time before in
        if dt2 =? #0 then
          sweep interpolation data2 rest j clean
                (inter ++ [at_time (time between) (coords before)])
        else
          r <- pydiv dt1 dt2 ;;
          let x_inter := interpolation (coords before) (coords after) r in
          if (abs (fst x_inter) >? #600) || (abs (snd x_inter) >? #600)
          then sweep interpolation data2 rest j clean (inter ++ [between])
          else
            let t_inter := time between in
            sweep interpolation data2 rest j clean
                  (inter ++ [at_time t_inter x_inter])
  end.

Definition unflip_result (unflip flipped : bool)
    (r : list (sample T) * list (sample T))
  : list (sample T) * list (sample T) :=
  if unflip && flipped then (snd r, fst r) else r.

Definition interpolate (data1 data2 : list (sample T))
    (interpolation : interpolation_fn) (unflip : bool)
  : result (list (sample T) * list (sample T)) :=
  o <- orient data1 data2 ;;
  let '(flipped, data1, data2) := o in
  i <- head_index data1 data2 ;;
  let data1 := head_trim data1 data2 i in
  let '(flipped, data1, data2) := reorient flipped data1 data2 in
  r <- sweep interpolation data2 data1 0 [] [] ;;
  Ok (unflip_result unflip flipped r).

(** *** [Replay.resample] *)

(** [while timestamped[i][0] < t: i += 1]; [k] is the number of
    indices from [i] to the end, after which [timestamped[i]] is out
    of range. *)
Fixpoint seek (timestamped : list (sample T)) (t : T) (k i : nat)
  : result nat :=
  match k with
  | O => Raise IndexError
  | S k' =>
      p <- getitem timestamped (Z.of_nat i) ;;
      if time p <? t then seek timestamped t k' (S i) else Ok i
  end.

(** The [while t < t_max] loop.  Nothing in the code bounds its
    number of rounds, hence the fuel. *)
Fixpoint resample_loop (fuel : nat) (timestamped : list (sample T))
    (frequency t_max : T) (i : nat) (t : T) (resampled : list (sample T))
  : result (list (sample T)) :=
  if t <? t_max then
    match fuel with
    | O => Diverge
    | S fuel' =>
        i <- seek timestamped t (List.length timestamped - i) i ;;
        p0 <- getitem timestamped (Z.of_nat i - 1) ;;
        p1 <- getitem timestamped (Z.of_nat i) ;;
        let dt1 := t - time p0 in
        let dt2 := time p1 - time p0 in
        r <- pydiv dt1 dt2 ;;
        let inter := Interpolation.linear (coords p0) (coords p1) r in
        let resampled := resampled ++ [at_time t inter] in
        step <- pydiv #1000 frequency ;;
        resample_loop fuel' timestamped frequency t_max i (t + step)
                      resampled
    end
  else Ok resampled.

Definition resample (fuel : nat) (timestamped : list (sample T))
    (frequency : T) : result (list (sample T)) :=
  let i := O in
  first <- getitem timestamped 0 ;;
  let t := time first in
  last <- getitem timestamped (-1) ;;
  let t_max := time last in
  resample_loop fuel timestamped frequency t_max i t [].

(** *** [Replay.skip_breaks] *)

Fixpoint skip_loop (break_threshold : T) (events : list (sample T))
    (total_break_time t_prev : T) (skipped : list (sample T))
  : list (sample T) :=
  match events with
  | [] => skipped
  | event :: rest =>
      let dt := time event - t_prev in
      let total_break_time :=
        if dt >? break_threshold then total_break_time + dt
        else total_break_time in
      skip_loop break_threshold rest total_break_time (time event)
        (skipped ++ [at_time (time event - total_break_time) (coords event)])
  end.

Definition skip_breaks (timestamped : list (sample T)) (break_threshold : T)
  : result (list (sample T)) :=
  first <- getitem timestamped 0 ;;
  Ok (skip_loop break_threshold timestamped #0 (time first) []).

(** *** [Replay.as_list_with_timestamps] *)

(** An [osrparse.ReplayEvent]: the time since the previous action is
    an integer number of milliseconds, the position a pair of
    numbers. *)
Record ReplayEvent : Type := {
    time_since_previous_action : Z;
    x : T;
    y : T;
    keys_pressed : Z
  }.

Record Replay : Type := {
    player_name : string;
    play_data : list ReplayEvent
  }.

(** [numpy] holds an array of integers in 64 bits each: a sum that
    leaves the range from [-2^63] to [2^63 - 1] wraps around. *)
Definition int64 (z : Z) : Z := ((z + 2 ^ 63) mod 2 ^ 64 - 2 ^ 63)%Z.

Fixpoint running_sum (acc : Z) (l : list Z) : list Z :=
  match l with
  | [] => []
  | a :: l' => int64 (acc + a) :: running_sum (int64 (acc + a)) l'
  end.

(** [numpy.cumsum] of an array of 64-bit integers, which is what
    [numpy.array] makes of time deltas that each fit 64 bits. *)
Definition cumsum (l : list Z) : list Z :=
  match l with
  | [] => []
  | a :: l' => a :: running_sum a l'
  end.

Fixpoint insert_by_time (p : stamped T) (l : list (stamped T))
  : list (stamped T) :=
  match l with
  | [] => [p]
  | p' :: l' =>
      if (tick p <? tick p')%Z then p :: p' :: l'
      else p' :: insert_by_time p l'
  end.

(** [txy.sort(key=lambda p: p[0])]: a stable sort on the timestamp. *)
Definition sort_by_time (txy : list (stamped T)) : list (stamped T) :=
  fold_left (fun sorted p => insert_by_time p sorted) txy [].

(** The timestamps leave [numpy] as 64-bit integers and are numbers
    like the coordinates from then on. *)
Definition as_list_with_timestamps (self : Replay)
  : result (list (sample T)) :=
  let timestamps :=
    cumsum (map time_since_previous_action (play_data self)) in
  let txy :=
    map (fun z => (fst z, x (snd z), y (snd z)))
        (combine timestamps (play_data self)) in
  Ok (map as_sample (sort_by_time txy)).

End Replay.

Arguments ReplayEvent T : clear implicits.
Arguments Replay T : clear implicits.
End Replay.

(** ** [class Comparer] *)

Module Comparer.
Section Comparer.
Context {T : Type} {N : Number T}.
Local Open Scope num_scope.

(** [numpy]'s [** 0.5]. *)
Variable sqrt : T -> T.

Definition total (l : list T) : T :=
  match l with
  | [] => #0
  | a :: l' => fold_left add l' a
  end.

(** [numpy.ndarray.mean] *)
Definition mean (l : list T) : T := div (total l) #(len l).

(** [numpy.ndarray.std] *)
Definition std (l : list T) : T :=
  let mu := mean l in
  sqrt (mean (map (fun d => abs (d - mu) * abs (d - mu)) l)).

Definition euclid (a b : T * T) : T :=
  let dx := fst a - fst b in
  let dy := snd a - snd b in
  sqrt (dx * dx + dy * dy).

Fixpoint distances (data1 data2 : list (T * T)) : list T :=
  match data1, data2 with
  | a :: data1', b :: data2' => euclid a b :: distances data1' data2'
  | _, _ => []
  end.

(** An empty array has no second axis to sum over, and taking the
    mean of nothing is an invalid operation under [np.seterr].  An
    overflow in the squares or sums of large coordinates, which
    [np.seterr(all='raise')] turns into [FloatingPointError], is
    beyond the total arithmetic of [Number]. *)
Definition _compute_data_similarity (data1 data2 : list (T * T))
  : result (T * T) :=
  let '(data1, data2) :=
    if (len data2 >? len data1)%Z then (data2, data1)
    else (data1, data2) in
  let shortest := List.length data2 in
  match data2 with
  | [] => Raise ValueError
  | _ =>
      let distance := distances (firstn shortest data1) data2 in
      Ok (mean distance, std distance)
  end.

(** The body of [_compare_two_replays] once both replays are lists
    of [(t, x, y)]. *)
Definition compare_samples (data1 data2 : list (sample T))
  : result (T * T) :=
  r <- Replay.interpolate data1 data2 Interpolation.linear false ;;
  let data1 := map coords (fst r) in
  let data2 := map coords (snd r) in
  _compute_data_similarity data1 data2.

Definition _compare_two_replays (replay1 replay2 : Replay.Replay T)
  : result (T * T) :=
  data1 <- Replay.as_list_with_timestamps replay1 ;;
  data2 <- Replay.as_list_with_timestamps replay2 ;;
  compare_samples data1 data2.

(** What [_print_result] prints: the mean, the deviation and the
    two player names; [None] when it returns without printing.  The
    prompt for a visualisation that follows the line is left out. *)
Definition _print_result (threshold : T) (result : T * T)
    (replay1 replay2 : Replay.Replay T)
  : option (T * T * string * string) :=
  let mean := fst result in
  let sigma := snd result in
  if mean >? threshold then None
  else Some (mean, sigma,
             Replay.player_name replay1, Replay.player_name replay2).

End Comparer.

(** *** [Comparer.compare] *)

(** What interrupts [compare] besides the exceptions of the replay
    code: a missing second list and an unknown mode. *)
Inductive raised : Type :=
  | Builtin (e : exn)
  | TypeError
  | Exception (msg : string).

(** How a run ends: it returns, an exception escapes, or it is still
    waiting. *)
Inductive ending : Type :=
  | Returned
  | Uncaught (e : raised)
  | Waiting.

Section Engine.
Context {T : Type} {N : Number T}.
Local Open Scope num_scope.

(** [numpy]'s [** 0.5]. *)
Variable sqrt : T -> T.

(** [config.WHITELIST] *)
Variable WHITELIST : list string.

(** What follows a printed result in [_print_result]: the question on
    standard input and, on a yes, [Draw.draw_replays]. *)
Variable prompt : Replay.Replay T -> Replay.Replay T -> result unit.

(** A line on standard output: the banner of the mode, or a result. *)
Inductive output : Type :=
  | Banner (msg : string)
  | Similarity (line : T * T * string * string).

(** [player in WHITELIST] *)
Definition whitelisted (player : string) : bool :=
  existsb (String.eqb player) WHITELIST.

Definition check_names (player1 player2 : string) : bool :=
  (whitelisted player1 && whitelisted player2)
  || String.eqb player1 player2.

(** [itertools.combinations(l, 2)] *)
Fixpoint combinations {A : Type} (l : list A) : list (A * A) :=
  match l with
  | [] => []
  | a :: l' => map (pair a) l' ++ combinations l'
  end.

(** The [for replay1, replay2 in iterator] loop: the lines it prints
    and how it ends. *)
Fixpoint compare_loop (threshold : T)
    (iterator : list (Replay.Replay T * Replay.Replay T))
  : list output * ending :=
  match iterator with
  | [] => ([], Returned)
  | (replay1, replay2) :: rest =>
      if check_names (Replay.player_name replay1)
                     (Replay.player_name replay2)
      then compare_loop threshold rest
      else
        match _compare_two_replays sqrt replay1 replay2 with
        | Ok result =>
            match _print_result threshold result replay1 replay2 with
            | None => compare_loop threshold rest
            | Some line =>
                match prompt replay1 replay2 with
                | Ok _ =>
                    let '(printed, e) := compare_loop threshold rest in
                    (Similarity line :: printed, e)
                | Raise e => ([Similarity line], Uncaught (Builtin e))
                | Diverge => ([Similarity line], Waiting)
                end
            end
        | Raise e => ([], Uncaught (Builtin e))
        | Diverge => ([], Waiting)
        end
  end.

(** [replays2] is [None] unless the caller passes a second list;
    [itertools.product] then refuses it. *)
Definition compare (threshold : T) (replays1 : list (Replay.Replay T))
    (replays2 : option (list (Replay.Replay T))) (mode : string)
  : list output * ending :=
  if String.eqb mode "double" then
    let banner :=
      Banner "comparing first set of replays to second set of replays" in
    match replays2 with
    | None => ([banner], Uncaught TypeError)
    | Some replays2 =>
        let '(printed, e) :=
          compare_loop threshold (list_prod replays1 replays2) in
        (banner :: printed, e)
    end
  else if String.eqb mode "single" then
    let banner := Banner "comparing first set of replays to itself" in
    let '(printed, e) := compare_loop threshold (combinations replays1) in
    (banner :: printed, e)
  else ([], Uncaught (Exception "`mode` must be one of 'double' or 'single'")).

End Engine.
End Comparer.

(** ** [class Investigator] *)

Module Investigator.
Section Investigator.
Context {T : Type} {N : Number T}.

(** [numpy.transpose] turns the list of [(t, x, y)] into the three
    rows [t], [x], [y]; of the empty list it makes an empty row, in
    which [data[0]] is out of range. *)
Definition as_time_space (replay : Replay.Replay T)
  : result (list T * list (list T)) :=
  data <- Replay.as_list_with_timestamps replay ;;
  match data with
  | [] => Raise IndexError
  | _ =>
      Ok (map time data,
          [map (fun p => fst (coords p)) data;
           map (fun p => snd (coords p)) data])
  end.

End Investigator.
End Investigator.

(** ** Concrete data and auxiliary notions *)

(** Integer-valued samples over the rationals. *)
Definition num (z : Z) : Qc := Q2Qc (inject_Z z).

Definition pt (t x y : Z) : sample Qc := (num t, num x, num y).

Definition scenario_A : list (sample Qc) := [pt 0 0 0; pt 10 10 0; pt 20 20 0].

Definition scenario_B : list (sample Qc) := [pt 0 0 0; pt 20 20 0].

(** The scenario's shape with every sample at [x = 700]. *)
Definition outlier_A : list (sample Qc) :=
  [pt 0 700 0; pt 10 700 0; pt 20 700 0].

Definition outlier_B : list (sample Qc) := [pt 0 700 0; pt 20 700 0].

(** Two traces that overlap, the second starting later. *)
Definition early_trace : list (sample Qc) :=
  [pt 0 0 0; pt 10 10 0; pt 20 20 0].

Definition late_trace : list (sample Qc) :=
  [pt 5 5 5; pt 15 15 5; pt 25 25 5].

(** A trace that begins after [early_trace] has ended. *)
Definition disjoint_trace : list (sample Qc) := [pt 30 0 0; pt 40 0 0].

Definition alice : Replay.Replay Qc :=
  {| Replay.player_name := "alice"; Replay.play_data := [] |}.

Definition bob : Replay.Replay Qc :=
  {| Replay.player_name := "bob"; Replay.play_data := [] |}.

(** A replay event with integer fields and no key pressed. *)
Definition event (dt x y : Z) : Replay.ReplayEvent Qc :=
  {| Replay.time_since_previous_action := dt;
     Replay.x := num x;
     Replay.y := num y;
     Replay.keys_pressed := 0 |}.

(** Two players with the same three events. *)
Definition carol : Replay.Replay Qc :=
  {| Replay.player_name := "carol";
     Replay.play_data := [event 0 0 0; event 10 10 0; event 10 20 0] |}.

Definition dave : Replay.Replay Qc :=
  {| Replay.player_name := "dave";
     Replay.play_data := [event 0 0 0; event 10 10 0; event 10 20 0] |}.

(** A trace with one long pause. *)
Definition paused_trace : list (sample Qc) :=
  [pt 0 0 0; pt 3 1 1; pt 2000 5 5; pt 2001 6 6].

(** The same trace with its times as integers. *)
Definition paused_ticks : list (stamped Qc) :=
  [(0%Z, num 0, num 0); (3%Z, num 1, num 1); (2000%Z, num 5, num 5);
   (2001%Z, num 6, num 6)].

(** Samples of binary64 floats. *)
Definition fpt (t x y : PrimFloat.float) : sample PrimFloat.float :=
  (t, x, y).



(** A trace at the times 0.2, 2, 3 and 4, the first one being the
    float that Python reads from [0.2]. *)
Definition offset_trace : list (sample PrimFloat.float) :=
  [fpt 0x1.999999999999ap-3 0 0; fpt 2 0 0; fpt 3 0 0; fpt 4 0 0].

(** A square root on the rationals, exact on squares of fractions. *)
Definition rational_sqrt (a : Qc) : Qc :=
  Q2Qc (Qmake (Z.sqrt (Qnum a)) (Pos.sqrt (Qden a))).

(** The number of rounds the loop of [resample] still has to make at
    time [t]. *)
Definition rounds (step t_max t : Qc) : nat :=
  Z.to_nat (Qceiling (this ((t_max - t) / step)%Qc)).

(** The cursor of [resample] is inside the list and the sample before
    it, if any, is earlier than [t]. *)
Definition cursor_ok (timestamped : list (sample Qc)) (i : nat) (t : Qc)
  : Prop :=
  (i < List.length timestamped)%nat
  /\ forall m p, i = S m -> nth_error timestamped m = Some p ->
                 (time p < t)%Qc.

Section Orders.
Context {T : Type} {N : Number T}.
Local Open Scope num_scope.

(** [p] is strictly before [q] in time. *)
Definition earlier (p q : sample T) : Prop := (time p <? time q) = true.

(** [q] is not before [p] in time. *)
Definition not_later (p q : sample T) : Prop := (time q <? time p) = false.

(** Timestamps that strictly increase along the list. *)
Definition strictly_increasing (l : list (sample T)) : Prop :=
  Sorted earlier l.

(** Timestamps that never decrease along the list. *)
Definition time_ordered (l : list (sample T)) : Prop :=
  Sorted not_later l.

(** Integer timestamps that never decrease along the list. *)
Definition ticks_ordered (l : list (stamped T)) : Prop :=
  Sorted (fun p q => (tick p <= tick q)%Z) l.

(** The list that [as_list_with_timestamps] sorts. *)
Definition stamped_events (events : list (Replay.ReplayEvent T))
  : list (stamped T) :=
  map (fun z => (fst z, Replay.x (snd z), Replay.y (snd z)))
      (combine
         (Replay.cumsum (map (@Replay.time_since_previous_action T) events))
         events).

(** Every time delta fits the 64 bits of an array element. *)
Definition fits_int64 (events : list (Replay.ReplayEvent T)) : Prop :=
  Forall (fun e =>
            (- 2 ^ 63 <= Replay.time_since_previous_action e < 2 ^ 63)%Z)
         events.

(** The time from the start of a replay to the last of [events]. *)
Definition elapsed (events : list (Replay.ReplayEvent T)) : Z :=
  fold_right (fun e acc => (Replay.time_since_previous_action e + acc)%Z)
             0%Z events.

(** What [skip_breaks] makes of a gap of [d] milliseconds. *)
Definition collapse (break_threshold d : Z) : Z :=
  if (d >? break_threshold)%Z then 0%Z else d.

(** The number type holds the integers up to [bound] in magnitude
    exactly: it adds, subtracts and compares them as integers.  So do
    Python's [int] and [Fraction] for every bound, [numpy]'s 64-bit
    integers up to [2^63 - 1] and binary64 floats up to [2^53]. *)
Definition exact_integers (bound : Z) : Prop :=
  (forall a b : Z,
      (Z.abs a <= bound)%Z -> (Z.abs b <= bound)%Z ->
      (Z.abs (a + b) <= bound)%Z -> #a + #b = #(a + b)%Z)
  /\ (forall a b : Z,
         (Z.abs a <= bound)%Z -> (Z.abs b <= bound)%Z ->
         (Z.abs (a - b) <= bound)%Z -> #a - #b = #(a - b)%Z)
  /\ (forall a b : Z,
         (Z.abs a <= bound)%Z -> (Z.abs b <= bound)%Z ->
         (#a <? #b) = (a <? b)%Z).

(** Every timestamp of [l] is, doubled, within [bound]: the
    difference of any two of them is within [bound]. *)
Definition ticks_within (bound : Z) (l : list (stamped T)) : Prop :=
  Forall (fun p => (2 * Z.abs (tick p) <= bound)%Z) l.
End Orders.

Section Notions.
Context {T : Type} {N : Number T}.
Local Open Scope num_scope.

(** Neither coordinate trips the outlier test of the sweep. *)
Definition within_bounds (c : T * T) : Prop :=
  (abs (fst c) >? #600) = false /\ (abs (snd c) >? #600) = false.

(** [p] carries the coordinates of a sample of [l]. *)
Definition coords_from (l : list (sample T)) (p : sample T) : Prop :=
  exists p', In p' l /\ coords p = coords p'.

Definition swap_pair {A B : Type} (r : A * B) : B * A := (snd r, fst r).

(** The differences between consecutive timestamps, the first one
    taken from [t_prev]. *)
Fixpoint diffs (t_prev : T) (l : list (sample T)) : list T :=
  match l with
  | [] => []
  | p :: l' => (time p - t_prev) :: diffs (time p) l'
  end.

Definition gaps (l : list (sample T)) : list T :=
  match l with
  | [] => []
  | p :: l' => diffs (time p) l'
  end.

(** [p] moved back in time by [g]. *)
Definition shift (g : T) (p : sample T) : sample T :=
  at_time (time p - g) (coords p).

(** [n] timestamps from [t] on, [step] apart. *)
Fixpoint times (step t : T) (n : nat) : list T :=
  match n with
  | O => []
  | S n' => t :: times step (t + step) n'
  end.

(** The time that the loop of [resample] has reached after [n]
    rounds: [step] added [n] times to [t]. *)
Fixpoint instant (step t : T) (n : nat) : T :=
  match n with
  | O => t
  | S n' => instant step (t + step) n'
  end.

(** [t] is before [t_max] and [t_max] is not before [t]. *)
Definition precedes (t t_max : T) : bool :=
  (t <? t_max) && negb (t_max <? t).

(** No sample has the timestamp of the sample before it, the first
    one being taken with the last: these are the [timestamped[i - 1]]
    and [timestamped[i]] between which [resample] interpolates. *)
Definition distinct_neighbours (timestamped : list (sample T)) : bool :=
  forallb
    (fun i =>
       match getitem timestamped (Z.of_nat i - 1),
             getitem timestamped (Z.of_nat i) with
       | Ok p0, Ok p1 => negb (time p1 - time p0 =? #0)
       | _, _ => true
       end)
    (seq 0 (List.length timestamped)).

(** The differences between consecutive integer timestamps, the
    first one taken from [t_prev]. *)
Fixpoint tick_diffs (t_prev : Z) (l : list (stamped T)) : list Z :=
  match l with
  | [] => []
  | p :: l' => (tick p - t_prev)%Z :: tick_diffs (tick p) l'
  end.

Definition tick_gaps (l : list (stamped T)) : list Z :=
  match l with
  | [] => []
  | p :: l' => tick_diffs (tick p) l'
  end.

(** [p] moved back in time by [g] milliseconds. *)
Definition delay (g : Z) (p : stamped T) : stamped T :=
  ((tick p - g)%Z, snd (fst p), snd p).

(** What [interpolate] does after the first swap. *)
Definition align (flipped : bool) (data1 data2 : list (sample T))
    (interpolation : Replay.interpolation_fn) (unflip : bool)
  : result (list (sample T) * list (sample T)) :=
  i <- Replay.head_index data1 data2 ;;
  let data1 := Replay.head_trim data1 data2 i in
  let '(flipped, data1, data2) := Replay.reorient flipped data1 data2 in
  r <- Replay.sweep interpolation data2 data1 0 [] [] ;;
  Ok (Replay.unflip_result unflip flipped r).
End Notions.

(** ** Tactics *)

(** Case analysis on the first computation of a sequence. *)
Ltac bind_case H :=
  match type of H with
  | bind ?c _ = _ =>
      let E := fresh "E" in
      destruct c eqn:E; simpl in H; try discriminate H
  end.

(** Equality of computed rational data: evaluate, then compare the
    underlying fractions. *)
Ltac qc_eval :=
  vm_compute;
  repeat first [ reflexivity | apply Qc_decomp; reflexivity | f_equal ].

(** Unfold the arithmetic of the interface at the rationals. *)
Ltac qc_ops := cbn [add sub mul div Qc_Number] in *.

Unset Implicit Arguments.

(** * Results *)

(** ** The run-time model *)

Section RuntimeFacts.
Context {A : Type}.
Implicit Types (l : list A) (a : A).

Lemma getitem_nat l (i : nat) :
  (i < List.length l)%nat ->
  exists a, getitem l (Z.of_nat i) = Ok a /\ nth_error l i = Some a.
Proof.
  intros Hi. unfold getitem.
  assert (Hn : (Z.of_nat i <? 0)%Z = false) by (apply Z.ltb_ge; lia).
  rewrite Hn; cbv zeta; rewrite Hn, Nat2Z.id.
  destruct (nth_error l i) as [a|] eqn:E.
  - exists a. split; reflexivity.
  - apply nth_error_None in E. lia.
Qed.

Lemma getitem_In l (i : Z) a : getitem l i = Ok a -> In a l.
Proof.
  unfold getitem. intros H.
  destruct (_ <? 0)%Z in H; [discriminate|].
  destruct (nth_error l _) as [a'|] eqn:E in H; [|discriminate].
  inversion H; subst. eapply nth_error_In; eassumption.
Qed.

Lemma getitem_0 l a : getitem l 0 = Ok a <-> exists l', l = a :: l'.
Proof.
  unfold getitem; simpl. split.
  - destruct l as [|a' l']; simpl; [discriminate|].
    intros H; inversion H; subst. eauto.
  - intros [l' ->]. reflexivity.
Qed.

Lemma getitem_0_nil : getitem (@nil A) 0 = Raise IndexError.
Proof. reflexivity. Qed.

Lemma next_index_found (test : A -> bool) l :
  existsb test l = true ->
  exists i, next_index test l = Ok i /\ (i < List.length l)%nat.
Proof.
  induction l as [|a l IH]; simpl; [discriminate|].
  destruct (test a); simpl.
  - intros _. exists O. split; [reflexivity|lia].
  - intros H. destruct (IH H) as (i & Hi & Hlt).
    exists (S i). rewrite Hi. split; [reflexivity|lia].
Qed.

Lemma next_index_missing (test : A -> bool) l :
  existsb test l = false -> next_index test l = Raise StopIteration.
Proof.
  induction l as [|a l IH]; simpl; [reflexivity|].
  destruct (test a); simpl; [discriminate|].
  intros H. rewrite (IH H). reflexivity.
Qed.

Lemma slice_from_suffix l (k : Z) : exists pre, l = pre ++ slice_from l k.
Proof.
  unfold slice_from. eexists. symmetry. apply firstn_skipn.
Qed.

Lemma slice_from_length l (k : Z) :
  (List.length (slice_from l k) <= List.length l)%nat.
Proof.
  destruct (slice_from_suffix l k) as [pre E].
  rewrite E at 2. rewrite length_app. lia.
Qed.

Lemma slice_from_In l (k : Z) a : In a (slice_from l k) -> In a l.
Proof.
  destruct (slice_from_suffix l k) as [pre E].
  intros H. rewrite E. apply in_or_app. now right.
Qed.
End RuntimeFacts.

(** ** The sweep of [Replay.interpolate] *)

Section SweepFacts.
Context {T : Type} {N : Number T}.
Local Open Scope num_scope.

Lemma advance_range (data2 : list (sample T)) (tb : T) : forall k j : nat,
  (j + k < List.length data2)%nat ->
  exists j', Replay.advance data2 tb k j = Ok j' /\ (j <= j' <= j + k)%nat.
Proof.
  induction k as [|k IH]; intros j H; simpl.
  - exists j. split; [reflexivity|lia].
  - destruct (getitem_nat data2 j) as (p & Hp & _); [lia|].
    rewrite Hp; simpl.
    destruct (time p <? tb).
    + destruct (IH (S j)) as (j' & Hj' & Hr); [lia|].
      exists j'. split; [assumption|lia].
    + exists j. split; [reflexivity|lia].
Qed.

Lemma advance_cursor_range (data2 : list (sample T)) (tb : T) (j : nat) :
  (j < List.length data2)%nat ->
  exists j', Replay.advance_cursor data2 tb j = Ok j'
             /\ (j <= j' < List.length data2)%nat.
Proof.
  intros H. unfold Replay.advance_cursor, len.
  destruct (advance_range data2 tb
              (Z.to_nat (Z.of_nat (List.length data2) - 1 - Z.of_nat j)) j)
    as (j' & Hj' & Hr); [lia|].
  exists j'. split; [assumption|lia].
Qed.

(** Once the cursor is inside a non-empty source the sweep returns:
    every index it reads is in range and the division it performs
    is guarded. *)
Lemma sweep_total (interpolation : Replay.interpolation_fn)
    (data2 : list (sample T)) :
  forall data1 (j : nat) clean inter,
    (j < List.length data2)%nat ->
    exists r, Replay.sweep interpolation data2 data1 j clean inter = Ok r.
Proof.
  induction data1 as [|between rest IH]; intros j clean inter Hj; simpl.
  - eauto.
  - destruct (advance_cursor_range data2 (time between) j Hj)
      as (j' & -> & Hj'); simpl.
    destruct (Z.eqb_spec (Z.of_nat j') (len data2 - 1)) as [_|Hne];
      [eauto|].
    unfold len in Hne.
    destruct (getitem_nat data2 j') as (before & -> & _); [lia|]; simpl.
    replace (Z.of_nat j' + 1)%Z with (Z.of_nat (S j')) by lia.
    destruct (getitem_nat data2 (S j')) as (after & -> & _); [lia|]; simpl.
    destruct (_ =? #0) eqn:Ez.
    + apply IH; lia.
    + unfold pydiv; rewrite Ez; simpl.
      destruct (_ || _); apply IH; lia.
Qed.

(** What a completed sweep has appended: a prefix [c] of the
    reference to [clean], and to [inter] a list [i] that is as long
    as [c], or one shorter when the sweep left through [break]; each
    appended element of [inter] keeps the timestamp of its reference
    sample and is within bounds, or the reference sample itself, or
    has the coordinates of a source sample. *)
Lemma sweep_appends (interpolation : Replay.interpolation_fn)
    (data2 : list (sample T)) :
  forall data1 (j : nat) clean inter clean' inter',
    Replay.sweep interpolation data2 data1 j clean inter
    = Ok (clean', inter') ->
    exists c i,
      clean' = clean ++ c /\ inter' = inter ++ i
      /\ (exists rest, data1 = c ++ rest)
      /\ (List.length i = List.length c
          \/ S (List.length i) = List.length c)
      /\ map time i = firstn (List.length i) (map time c)
      /\ Forall (fun p => within_bounds (coords p) \/ In p data1
                          \/ coords_from data2 p) i.
Proof.
  induction data1 as [|between rest IH];
    intros j clean inter clean' inter' H; simpl in H.
  - inversion H; subst. exists [], [].
    rewrite !app_nil_r. repeat split; auto. exists []; reflexivity.
  - bind_case H.
    destruct (Z.of_nat a =? len data2 - 1)%Z.
    { inversion H; subst. exists (between :: nil), nil.
      rewrite app_nil_r. repeat split; auto. exists rest; reflexivity. }
    bind_case H. bind_case H.
    assert (Step : forall p,
               (within_bounds (coords p) \/ p = between
                \/ coords_from data2 p) ->
               time p = time between ->
               Replay.sweep interpolation data2 rest a
                 (clean ++ [between]) (inter ++ [p]) = Ok (clean', inter') ->
               exists c i,
                 clean' = clean ++ c /\ inter' = inter ++ i
                 /\ (exists rest0, between :: rest = c ++ rest0)
                 /\ (List.length i = List.length c
                     \/ S (List.length i) = List.length c)
                 /\ map time i = firstn (List.length i) (map time c)
                 /\ Forall (fun p => within_bounds (coords p)
                                     \/ In p (between :: rest)
                                     \/ coords_from data2 p) i).
    { intros p Hp Ht Hs.
      destruct (IH _ _ _ _ _ Hs)
        as (c & i & -> & -> & [rest0 ->] & Hlen & Htime & Hall).
      exists (between :: c), (p :: i). rewrite <- !app_assoc. simpl.
      repeat split; auto.
      - exists rest0; reflexivity.
      - destruct Hlen; [left|right]; lia.
      - rewrite Ht, Htime. reflexivity.
      - constructor.
        + destruct Hp as [Hp|[->|Hp]]; auto.
        + eapply Forall_impl; [|exact Hall]. simpl.
          intros p0 [Hp0|[Hp0|Hp0]]; auto. }
    destruct (_ =? #0) eqn:Ez.
    { apply Step in H; auto.
      right; right. exists a0. split; [|reflexivity].
      eapply getitem_In; eassumption. }
    unfold pydiv in H; rewrite Ez in H; simpl in H.
    destruct (_ || _) eqn:Eb.
    { apply Step in H; auto. }
    apply Step in H; auto.
    left. apply orb_false_iff in Eb. exact Eb.
Qed.
End SweepFacts.

(** ** [Replay.interpolate] *)

Section InterpolateFacts.
Context {T : Type} {N : Number T}.
Local Open Scope num_scope.

Lemma interpolate_align (data1 data2 : list (sample T))
    (interpolation : Replay.interpolation_fn) (unflip : bool) :
  Replay.interpolate data1 data2 interpolation unflip
  = (o <- Replay.orient data1 data2 ;;
     align (fst (fst o)) (snd (fst o)) (snd o) interpolation unflip).
Proof.
  unfold Replay.interpolate, align.
  destruct (Replay.orient data1 data2) as [[[flipped d1] d2]| |];
    reflexivity.
Qed.

Lemma orient_cons (a b : sample T) (l1 l2 : list (sample T)) :
  Replay.orient (a :: l1) (b :: l2)
  = if time a >? time b then Ok (true, b :: l2, a :: l1)
    else Ok (false, a :: l1, b :: l2).
Proof. reflexivity. Qed.

(** [orient] only swaps, and needs a first sample on both sides. *)
Lemma orient_inv (data1 data2 d1 d2 : list (sample T)) (flipped : bool) :
  Replay.orient data1 data2 = Ok (flipped, d1, d2) ->
  data1 <> [] /\ data2 <> []
  /\ ((d1 = data1 /\ d2 = data2) \/ (d1 = data2 /\ d2 = data1)).
Proof.
  unfold Replay.orient. intros H.
  bind_case H. bind_case H.
  apply getitem_0 in E as [l1 ->]. apply getitem_0 in E0 as [l2 ->].
  destruct (_ <? _); inversion H; subst; repeat split; auto; discriminate.
Qed.

Lemma head_trim_nonempty (data1 data2 : list (sample T)) (i : nat) :
  (i < List.length data1)%nat -> Replay.head_trim data1 data2 i <> [].
Proof.
  intros Hi Hnil. apply (f_equal (@List.length _)) in Hnil.
  revert Hnil. unfold Replay.head_trim, slice_from, len.
  destruct (_ <? _)%Z.
  - destruct (Z.ltb_spec (Z.of_nat i) 0); rewrite length_skipn; simpl; lia.
  - destruct (Z.ltb_spec (Z.of_nat i - 1) 0);
      rewrite length_skipn; simpl; lia.
Qed.

Lemma head_trim_length (data1 data2 : list (sample T)) (i : nat) :
  (List.length (Replay.head_trim data1 data2 i) <= List.length data1)%nat.
Proof.
  unfold Replay.head_trim. destruct (_ <? _)%Z; apply slice_from_length.
Qed.

Lemma head_trim_In (data1 data2 : list (sample T)) (i : nat) (p : sample T) :
  In p (Replay.head_trim data1 data2 i) -> In p data1.
Proof.
  unfold Replay.head_trim. destruct (_ <? _)%Z; apply slice_from_In.
Qed.

(** The shape of every successful call: a sweep of a reference [ref]
    against a source [src], both made of input samples, the reference
    no longer than either input. *)
Lemma interpolate_inv (data1 data2 : list (sample T))
    (interpolation : Replay.interpolation_fn) (unflip : bool)
    (r : list (sample T) * list (sample T)) :
  Replay.interpolate data1 data2 interpolation unflip = Ok r ->
  exists (flipped : bool) (ref src : list (sample T))
         (c i : list (sample T)),
    Replay.sweep interpolation src ref 0 [] [] = Ok (c, i)
    /\ r = Replay.unflip_result unflip flipped (c, i)
    /\ (List.length ref <= List.length data1)%nat
    /\ (List.length ref <= List.length data2)%nat
    /\ (forall p, In p ref \/ In p src -> In p data1 \/ In p data2).
Proof.
  unfold Replay.interpolate. intros H.
  bind_case H. destruct a as [[flipped d1] d2].
  apply orient_inv in E as (_ & _ & Hd).
  bind_case H.
  pose proof (head_trim_length d1 d2 a) as Hlen.
  pose proof (head_trim_In d1 d2 a) as Hin.
  unfold Replay.reorient, len in H.
  destruct (Z.gtb_spec (Z.of_nat (List.length (Replay.head_trim d1 d2 a)))
              (Z.of_nat (List.length d2))) as [Hgt|Hle];
    bind_case H; destruct a0 as [c i]; inversion H; subst r;
    match goal with
    | E : Replay.sweep _ ?s ?rf _ _ _ = _ |- context [negb flipped] =>
        exists (negb flipped), rf, s, c, i
    | E : Replay.sweep _ ?s ?rf _ _ _ = _ |- _ =>
        exists flipped, rf, s, c, i
    end;
    (split; [assumption|]; split; [reflexivity|]);
    destruct Hd as [[-> ->]|[-> ->]];
    (split; [lia|]; split; [lia|]);
    intros p [Hp|Hp]; auto.
Qed.

(** Toggling the flag only swaps what an unflipping call returns. *)
Lemma align_flip (flipped : bool) (d1 d2 : list (sample T))
    (interpolation : Replay.interpolation_fn) :
  align (negb flipped) d1 d2 interpolation true
  = fmap swap_pair (align flipped d1 d2 interpolation true).
Proof.
  unfold align. destruct (Replay.head_index d1 d2); simpl; try reflexivity.
  unfold Replay.reorient. destruct (_ >? _)%Z;
    destruct (Replay.sweep _ _ _ _ _ _) as [[c i]| |]; simpl;
    try reflexivity; destruct flipped; reflexivity.
Qed.

Lemma align_total (flipped : bool) (d1 d2 : list (sample T))
    (interpolation : Replay.interpolation_fn) (unflip : bool) (i : nat) :
  Replay.head_index d1 d2 = Ok i -> (i < List.length d1)%nat -> d2 <> [] ->
  exists r, align flipped d1 d2 interpolation unflip = Ok r.
Proof.
  intros Hi Hlt Hd2. unfold align. rewrite Hi; simpl.
  pose proof (head_trim_nonempty d1 d2 i Hlt) as Hne.
  unfold Replay.reorient.
  destruct (_ >? _)%Z;
    match goal with
    | |- context [Replay.sweep _ ?s ?rf 0%nat [] []] =>
        destruct (sweep_total interpolation s rf 0%nat [] []) as [r ->];
        [destruct s; [congruence|simpl; lia]|simpl; eauto]
    end.
Qed.
End InterpolateFacts.

Section InterpolateClaims.
Context {T : Type} {N : Number T}.
Local Open Scope num_scope.

(** X3: the part of the length invariant that the sweep keeps on
    every input: [inter] is never longer than [clean], [clean] is at
    most one longer than [inter], and neither is longer than an
    input. *)
Lemma interpolate_lengths (data1 data2 clean inter : list (sample T))
    (interpolation : Replay.interpolation_fn) :
  Replay.interpolate data1 data2 interpolation false = Ok (clean, inter) ->
  (List.length inter <= List.length clean <= S (List.length inter))%nat
  /\ (List.length clean
      <= Nat.min (List.length data1) (List.length data2))%nat.
Proof.
  intros H. apply interpolate_inv in H
    as (flipped & ref & src & c & i & Hs & Hr & Hl1 & Hl2 & _).
  simpl in Hr. inversion Hr; subst c i.
  apply sweep_appends in Hs
    as (c & i & -> & -> & [rest ->] & Hlen & _).
  simpl. rewrite length_app in Hl1, Hl2. lia.
Qed.

(** C3, as the code has it: every element of the interpolated
    sequence either has both coordinates of magnitude at most 600, or
    carries the coordinates of one of the input samples (the
    reference sample the outlier guard substitutes, or the earlier
    bracket of a zero-width interval). *)
Theorem interpolated_bounded_or_input
    (data1 data2 clean inter : list (sample T))
    (interpolation : Replay.interpolation_fn) :
  Replay.interpolate data1 data2 interpolation false = Ok (clean, inter) ->
  Forall (fun p => within_bounds (coords p)
                   \/ coords_from (data1 ++ data2) p) inter.
Proof.
  intros H. apply interpolate_inv in H
    as (flipped & ref & src & c & i & Hs & Hr & _ & _ & Hin).
  simpl in Hr. inversion Hr; subst c i.
  apply sweep_appends in Hs as (c & i & _ & -> & _ & _ & _ & Hall).
  simpl. eapply Forall_impl; [|exact Hall]. simpl.
  intros p [Hp|[Hp|(p' & Hp' & Hc)]].
  - left; exact Hp.
  - right. exists p. split; [|reflexivity].
    apply in_or_app. apply Hin. left; exact Hp.
  - right. exists p'. split; [|exact Hc].
    apply in_or_app. apply Hin. right; exact Hp'.
Qed.

(** X6: inputs that stay within the bound of 600 give an
    interpolated sequence that stays within it. *)
Corollary interpolated_bounded_of_bounded
    (data1 data2 clean inter : list (sample T))
    (interpolation : Replay.interpolation_fn) :
  Forall (fun p => within_bounds (coords p)) (data1 ++ data2) ->
  Replay.interpolate data1 data2 interpolation false = Ok (clean, inter) ->
  Forall (fun p => within_bounds (coords p)) inter.
Proof.
  intros Hall H. rewrite Forall_forall in Hall.
  apply interpolate_inv in H
    as (flipped & ref & src & c & i & Hs & Hr & _ & _ & Hin).
  simpl in Hr. inversion Hr; subst c i.
  apply sweep_appends in Hs as (c & i & _ & -> & _ & _ & _ & Hi).
  simpl. eapply Forall_impl; [|exact Hi]. simpl.
  intros p [Hp|[Hp|(p' & Hp' & Hc)]].
  - exact Hp.
  - apply Hall, in_or_app, Hin. left; exact Hp.
  - rewrite Hc. apply Hall, in_or_app, Hin. right; exact Hp'.
Qed.

(** C9, as the code has it: when the two first timestamps differ
    (exactly one of them is later than the other), an unflipping
    call on [(A, B)] returns the swapped result of the call on
    [(B, A)], errors included. *)
Theorem interpolate_unflip_swap
    (a b : sample T) (l1 l2 : list (sample T))
    (interpolation : Replay.interpolation_fn) :
  (time a >? time b) <> (time b >? time a) ->
  Replay.interpolate (a :: l1) (b :: l2) interpolation true
  = fmap swap_pair
      (Replay.interpolate (b :: l2) (a :: l1) interpolation true).
Proof.
  intros Hne. rewrite !interpolate_align, !orient_cons.
  destruct (time a >? time b) eqn:Eab, (time b >? time a) eqn:Eba;
    try congruence; simpl.
  - apply (align_flip false).
  - rewrite (align_flip false). unfold fmap.
    destruct (align false _ _ _ _) as [[c i]| |]; reflexivity.
Qed.

(** C10: once both sequences have a first sample, the head-trim step
    decides the outcome.  If no sample of the earlier-starting
    sequence is later than the first timestamp of the other one,
    [next] raises [StopIteration] and so does the call; if there is
    such a sample, the step yields an index into that sequence and
    the call returns a pair. *)
Theorem interpolate_head_trim_partial
    (data1 data2 d1 d2 : list (sample T)) (flipped : bool) (b : sample T)
    (interpolation : Replay.interpolation_fn) (unflip : bool) :
  Replay.orient data1 data2 = Ok (flipped, d1, d2) ->
  getitem d2 0 = Ok b ->
  ((forall p, In p d1 -> (time p >? time b) = false) ->
   Replay.head_index d1 d2 = Raise StopIteration
   /\ Replay.interpolate data1 data2 interpolation unflip
      = Raise StopIteration)
  /\ ((exists p, In p d1 /\ (time p >? time b) = true) ->
      exists i r,
        Replay.head_index d1 d2 = Ok i /\ (i < List.length d1)%nat
        /\ Replay.interpolate data1 data2 interpolation unflip = Ok r).
Proof.
  intros Ho Hb. rewrite interpolate_align, Ho. simpl.
  unfold align, Replay.head_index. rewrite Hb. simpl. split.
  - intros Hnone.
    assert (E : existsb (fun p => time p >? time b) d1 = false).
    { destruct (existsb _ d1) eqn:E; [|reflexivity].
      apply existsb_exists in E as (p & Hp & Ht).
      rewrite (Hnone p Hp) in Ht. discriminate. }
    rewrite (next_index_missing _ _ E). split; reflexivity.
  - intros (p & Hp & Ht).
    assert (E : existsb (fun p => time p >? time b) d1 = true).
    { apply existsb_exists. exists p. split; assumption. }
    destruct (next_index_found _ _ E) as (i & Hi & Hlt).
    assert (Hd2 : d2 <> []).
    { apply getitem_0 in Hb as [l' ->]. discriminate. }
    destruct (align_total flipped d1 d2 interpolation unflip i)
      as [r Hr]; auto.
    { unfold Replay.head_index. rewrite Hb. exact Hi. }
    exists i, r. split; [exact Hi|]. split; [exact Hlt|].
    unfold align, Replay.head_index in Hr. rewrite Hb in Hr. exact Hr.
Qed.
End InterpolateClaims.

(** ** The rationals as numbers *)

Section RationalFacts.
Local Open Scope Qc_scope.

Lemma Qc_ltb_lt (a b : Qc) : ltb a b = true <-> a < b.
Proof.
  simpl. rewrite Qclt_alt. destruct (a ?= b); split; congruence.
Qed.

Lemma Qc_ltb_ge (a b : Qc) : ltb a b = false <-> b <= a.
Proof.
  split.
  - intros H. apply Qcnot_lt_le. intros Hlt.
    apply Qc_ltb_lt in Hlt. congruence.
  - intros H. destruct (ltb a b) eqn:E; [|reflexivity].
    apply Qc_ltb_lt in E. exfalso. eapply Qcle_not_lt; eassumption.
Qed.

Lemma Qc_eqb_eq (a b : Qc) : eqb a b = true <-> a = b.
Proof.
  simpl. rewrite Qceq_alt. destruct (a ?= b); split; congruence.
Qed.

Lemma Qc_eqb_neq (a b : Qc) : eqb a b = false <-> a <> b.
Proof.
  rewrite <- Qc_eqb_eq. destruct (eqb a b); split; congruence.
Qed.

Lemma Qc_ltb_irrefl (a : Qc) : ltb a a = false.
Proof. apply Qc_ltb_ge, Qcle_refl. Qed.

Lemma this_plus (a b : Qc) : (this (a + b) == this a + this b)%Q.
Proof. unfold Qcplus, Q2Qc. cbn [this]. apply Qred_correct. Qed.

Lemma this_mult (a b : Qc) : (this (a * b) == this a * this b)%Q.
Proof. unfold Qcmult, Q2Qc. cbn [this]. apply Qred_correct. Qed.

Lemma this_minus (a b : Qc) : (this (a - b) == this a - this b)%Q.
Proof.
  unfold Qcminus, Qcplus, Qcopp, Q2Qc. cbn [this].
  rewrite !Qred_correct. reflexivity.
Qed.

Lemma this_num (z : Z) : (this (num z) == inject_Z z)%Q.
Proof. unfold num, Q2Qc. cbn [this]. apply Qred_correct. Qed.

Lemma num_le (a b : Z) : (a <= b)%Z <-> num a <= num b.
Proof. unfold Qcle. rewrite !this_num, <- Zle_Qle. reflexivity. Qed.

Lemma num_lt (a b : Z) : (a < b)%Z <-> num a < num b.
Proof. unfold Qclt. rewrite !this_num, <- Zlt_Qlt. reflexivity. Qed.

(** The fractions hold every integer exactly. *)
Lemma Qc_exact_integers (bound : Z) : @exact_integers Qc Qc_Number bound.
Proof.
  split; [|split]; intros a b _ _; [intros _|intros _|];
    change (@of_Z Qc Qc_Number) with num.
  - apply Qc_is_canon. cbn [add Qc_Number].
    rewrite this_plus, !this_num, inject_Z_plus. reflexivity.
  - apply Qc_is_canon. cbn [sub Qc_Number].
    rewrite this_minus, !this_num. unfold Z.sub.
    rewrite inject_Z_plus, inject_Z_opp. reflexivity.
  - destruct (Z.ltb_spec a b) as [H|H].
    + apply Qc_ltb_lt. apply (proj1 (num_lt a b) H).
    + apply Qc_ltb_ge. apply (proj1 (num_le b a) H).
Qed.
End RationalFacts.

(** ** The concrete scenario *)

Lemma scenario_interpolate (unflip : bool) :
  Replay.interpolate scenario_A scenario_B Interpolation.linear unflip
  = Ok (if unflip then ([pt 0 0 0], [pt 0 0 0; pt 20 20 0])
        else ([pt 0 0 0; pt 20 20 0], [pt 0 0 0])).
Proof. destruct unflip; qc_eval. Qed.

(** C1: on the scenario's inputs the sweep leaves through [break] at
    the reference sample [(20, 20, 0)], which is already in [clean]:
    the call returns two samples in [clean] and one in [inter]. *)
Theorem interpolate_break_keeps_current :
  exists clean inter,
    Replay.interpolate scenario_A scenario_B Interpolation.linear false
    = Ok (clean, inter)
    /\ clean = [pt 0 0 0; pt 20 20 0] /\ inter = [pt 0 0 0]
    /\ List.length clean = 2%nat /\ List.length inter = 1%nat.
Proof.
  do 2 eexists. rewrite scenario_interpolate. repeat split.
Qed.

(** C2, as stated, does not hold: the call does not return
    [(10, 10, 0)] in either sequence. *)
Lemma scenario_not_as_stated :
  Replay.interpolate scenario_A scenario_B Interpolation.linear false
  <> Ok ([pt 0 0 0; pt 10 10 0], [pt 0 0 0; pt 10 10 0]).
Proof.
  rewrite scenario_interpolate. intros H.
  injection H as _ H. discriminate H.
Qed.

(** C2, as the code has it: the shorter sequence [B] drives the sweep,
    so [clean] is made of samples of [B]; the interpolated sequence is
    [[(0, 0, 0)]], [clean] starts with the same sample, and the mean
    distance over the aligned points is 0. *)
Theorem scenario_alignment (sqrt : Qc -> Qc) :
  sqrt (num 0) = num 0 ->
  exists clean,
    Replay.interpolate scenario_A scenario_B Interpolation.linear false
    = Ok (clean, [pt 0 0 0])
    /\ firstn 1 clean = [pt 0 0 0]
    /\ incl clean scenario_B
    /\ fmap fst (Comparer.compare_samples sqrt scenario_A scenario_B)
       = Ok (num 0).
Proof.
  intros Hsqrt. exists [pt 0 0 0; pt 20 20 0].
  split; [apply (scenario_interpolate false)|].
  split; [reflexivity|].
  split; [intros p Hp; exact Hp|].
  unfold Comparer.compare_samples.
  rewrite (scenario_interpolate false).
  cbv [bind fmap fst snd map coords pt Comparer._compute_data_similarity
       len List.length Z.of_nat Pos.of_succ_nat Pos.succ Z.gtb Z.compare
       Pos.compare Pos.compare_cont firstn Comparer.distances
       Comparer.euclid Comparer.mean Comparer.total fold_left].
  f_equal.
  match goal with
  | |- context [sqrt ?a] =>
      replace a with (num 0) by (apply Qc_decomp; reflexivity)
  end.
  rewrite Hsqrt. apply Qc_decomp. reflexivity.
Qed.

Lemma scenario_alignment_witness :
  exists clean,
    Replay.interpolate scenario_A scenario_B Interpolation.linear false
    = Ok (clean, [pt 0 0 0])
    /\ firstn 1 clean = [pt 0 0 0]
    /\ incl clean scenario_B
    /\ fmap fst (Comparer.compare_samples rational_sqrt
                   scenario_A scenario_B)
       = Ok (num 0).
Proof.
  apply (scenario_alignment rational_sqrt).
  apply Qc_decomp. reflexivity.
Defined.

(** ** The outlier guard *)

Lemma Qc_within_bounds (c : Qc * Qc) :
  within_bounds c
  <-> (Qcabs (fst c) <= num 600)%Qc /\ (Qcabs (snd c) <= num 600)%Qc.
Proof.
  unfold within_bounds. rewrite !Qc_ltb_ge. reflexivity.
Qed.

(** C3, as stated, does not hold: a reference sample at [x = 700]
    is copied into the interpolated sequence by the guard itself. *)
Lemma interpolated_bound_counterexample :
  ~ (forall (data1 data2 clean inter : list (sample Qc)),
        Replay.interpolate data1 data2 Interpolation.linear false
        = Ok (clean, inter) ->
        Forall (fun p => (Qcabs (fst (coords p)) <= num 600)%Qc
                         /\ (Qcabs (snd (coords p)) <= num 600)%Qc) inter).
Proof.
  intros H.
  specialize (H outlier_A outlier_B [pt 0 700 0; pt 20 700 0] [pt 0 700 0]).
  assert (E : Replay.interpolate outlier_A outlier_B Interpolation.linear false
              = Ok ([pt 0 700 0; pt 20 700 0], [pt 0 700 0])) by qc_eval.
  apply H in E. inversion E as [|p l [Hx _] _]; subst.
  revert Hx. vm_compute. intros Hx. apply Hx. reflexivity.
Qed.

Lemma interpolated_bounded_or_input_witness :
  Forall (fun p => within_bounds (coords p)
                   \/ coords_from (outlier_A ++ outlier_B) p)
         [pt 0 700 0].
Proof.
  apply (interpolated_bounded_or_input outlier_A outlier_B
           [pt 0 700 0; pt 20 700 0] [pt 0 700 0] Interpolation.linear).
  qc_eval.
Defined.

(** ** Order of the arguments *)

(** C9, as stated, does not hold: with equal first timestamps neither
    call swaps at the start, each trims the head of its own first
    argument, and the two results are unrelated. *)
Lemma interpolate_unflip_swap_counterexample :
  Replay.interpolate scenario_A scenario_B Interpolation.linear true
  <> fmap swap_pair
       (Replay.interpolate scenario_B scenario_A Interpolation.linear true).
Proof.
  rewrite scenario_interpolate.
  assert (E : Replay.interpolate scenario_B scenario_A Interpolation.linear
                true = Ok ([pt 20 20 0], [])) by qc_eval.
  rewrite E. simpl. intros H. injection H as H _. discriminate H.
Qed.

Lemma interpolate_unflip_swap_witness :
  Replay.interpolate early_trace late_trace Interpolation.linear true
  = fmap swap_pair
      (Replay.interpolate late_trace early_trace Interpolation.linear true).
Proof.
  apply (interpolate_unflip_swap (pt 0 0 0) (pt 5 5 5)
           [pt 10 10 0; pt 20 20 0] [pt 15 15 5; pt 25 25 5]
           Interpolation.linear).
  vm_compute. discriminate.
Defined.

(** ** Traces that do not overlap *)

Lemma interpolate_head_trim_partial_witness :
  (Replay.head_index early_trace disjoint_trace = Raise StopIteration
   /\ Replay.interpolate early_trace disjoint_trace Interpolation.linear false
      = Raise StopIteration)
  /\ (exists i r,
         Replay.head_index early_trace late_trace = Ok i
         /\ (i < List.length early_trace)%nat
         /\ Replay.interpolate early_trace late_trace Interpolation.linear
              false = Ok r).
Proof.
  split.
  - apply (interpolate_head_trim_partial early_trace disjoint_trace
             early_trace disjoint_trace false (pt 30 0 0)
             Interpolation.linear false); try reflexivity.
    intros p [<-|[<-|[<-|[]]]]; reflexivity.
  - apply (interpolate_head_trim_partial early_trace late_trace
             early_trace late_trace false (pt 5 5 5)
             Interpolation.linear false); try reflexivity.
    exists (pt 10 10 0). split; [simpl; auto|reflexivity].
Defined.

(** ** [Interpolation.before] *)

(** C4: [before] returns its second argument, the later bracket; at
    [x1 = (0, 0)], [x2 = (1, 1)] it returns [(1, 1)], not [x1]. *)
Theorem before_returns_later_bracket :
  (forall (T : Type) (N : Number T) (x1 x2 : T * T) (r : T),
      Interpolation.before x1 x2 r = x2)
  /\ Interpolation.before (num 0, num 0) (num 1, num 1) (num 0)
     = (num 1, num 1)
  /\ Interpolation.before (num 0, num 0) (num 1, num 1) (num 0)
     <> (num 0, num 0).
Proof.
  split; [reflexivity|]. split; [reflexivity|].
  unfold Interpolation.before. intros H.
  injection H as H _. discriminate H.
Qed.

(** ** [Comparer._print_result] *)

(** C5: a result is printed exactly when the mean is at most the
    threshold; a mean equal to the threshold, which is not below it,
    is printed. *)
Theorem print_result_at_threshold :
  (forall (threshold mean sigma : Qc) (replay1 replay2 : Replay.Replay Qc),
      Comparer._print_result threshold (mean, sigma) replay1 replay2 <> None
      <-> (mean <= threshold)%Qc)
  /\ Comparer._print_result (num 5) (num 5, num 0) alice bob
     = Some (num 5, num 0, "alice"%string, "bob"%string)
  /\ ~ (num 5 < num 5)%Qc.
Proof.
  split; [|split].
  - intros threshold mean sigma replay1 replay2.
    unfold Comparer._print_result. cbn [fst snd].
    rewrite <- Qc_ltb_ge.
    destruct (ltb threshold mean); split; congruence.
  - reflexivity.
  - vm_compute. discriminate.
Qed.

(** ** Inputs with too few samples *)

(** C8, as stated, does not hold: a replay without events gives the
    empty list, and resampling a single sample gives the empty list. *)
Lemma short_inputs_counterexample :
  Replay.as_list_with_timestamps alice = Ok []
  /\ Replay.resample 0 [pt 0 0 0] (num 100) = Ok [].
Proof. split; reflexivity. Qed.

(** C8, as the code has it: building the sample list of a replay
    without events returns the empty list; [resample] raises
    [IndexError] on the empty list and returns the empty list on a
    single sample. *)
Theorem short_inputs :
  (forall (T : Type) (N : Number T) (name : string),
      Replay.as_list_with_timestamps
        {| Replay.player_name := name; Replay.play_data := [] |} = Ok [])
  /\ (forall (T : Type) (N : Number T) (fuel : nat) (frequency : T),
         Replay.resample fuel (@nil (sample T)) frequency = Raise IndexError)
  /\ (forall (fuel : nat) (p : sample Qc) (frequency : Qc),
         Replay.resample fuel [p] frequency = Ok []).
Proof.
  split; [reflexivity|]. split; [reflexivity|].
  intros fuel p frequency. unfold Replay.resample. simpl.
  assert (E : ltb (time p) (time p) = false)
    by (apply Qc_ltb_ge, Qcle_refl).
  destruct fuel; simpl; simpl in E; rewrite E; reflexivity.
Qed.

(** ** [Replay.skip_breaks] *)

Section SkipLoopFacts.
Context {T : Type} {N : Number T}.
Local Open Scope num_scope.

Lemma skip_loop_acc (thr : T) :
  forall (events : list (sample T)) (total t_prev : T)
         (skipped : list (sample T)),
    Replay.skip_loop thr events total t_prev skipped
    = skipped ++ Replay.skip_loop thr events total t_prev [].
Proof.
  induction events as [|event rest IH]; intros total t_prev skipped; simpl.
  - now rewrite app_nil_r.
  - rewrite IH. rewrite (IH _ _ [_]). now rewrite <- app_assoc.
Qed.

Lemma skip_loop_cons (thr : T) (event : sample T)
    (rest : list (sample T)) (total t_prev : T) :
  Replay.skip_loop thr (event :: rest) total t_prev []
  = let dt := time event - t_prev in
    let total' := if dt >? thr then total + dt else total in
    shift total' event :: Replay.skip_loop thr rest total' (time event) [].
Proof. simpl. rewrite skip_loop_acc. reflexivity. Qed.
End SkipLoopFacts.

(** C7, as stated, does not hold: on the time-ordered trace at the
    float times 0.2, 2, 3 and 4, whose only gap above the threshold
    1 is the first one, the last gap of the output is above 1.  The
    later timestamps are reduced by the float nearest to 1.8, and
    each of these subtractions rounds. *)
Lemma skip_breaks_float_counterexample :
  time_ordered offset_trace
  /\ map (fun d => ltb 1%float d) (gaps offset_trace) = [true; false; false]
  /\ exists skipped,
      Replay.skip_breaks offset_trace 1%float = Ok skipped
      /\ map (fun d => ltb 1%float d) (gaps skipped) = [false; false; true].
Proof.
  split; [|split].
  - repeat constructor.
  - vm_compute. reflexivity.
  - eexists. split; [reflexivity|]. vm_compute. reflexivity.
Qed.

(** Integer timestamps, in number types that hold them exactly. *)

Section IntegerTimes.
Context {T : Type} {N : Number T}.
Local Open Scope num_scope.
Variable bound : Z.
Hypothesis exact : exact_integers bound.

Lemma add_exact (a b : Z) :
  (Z.abs a <= bound)%Z -> (Z.abs b <= bound)%Z ->
  (Z.abs (a + b) <= bound)%Z -> #a + #b = #(a + b)%Z.
Proof. apply exact. Qed.

Lemma sub_exact (a b : Z) :
  (Z.abs a <= bound)%Z -> (Z.abs b <= bound)%Z ->
  (Z.abs (a - b) <= bound)%Z -> #a - #b = #(a - b)%Z.
Proof. apply exact. Qed.

Lemma ltb_exact (a b : Z) :
  (Z.abs a <= bound)%Z -> (Z.abs b <= bound)%Z ->
  (#a <? #b) = (a <? b)%Z.
Proof. apply exact. Qed.

Lemma shift_as_sample (g : Z) (p : stamped T) :
  (Z.abs (tick p) <= bound)%Z -> (Z.abs g <= bound)%Z ->
  (Z.abs (tick p - g) <= bound)%Z ->
  shift #g (as_sample p) = as_sample (delay g p).
Proof.
  intros Hp Hg Hd. unfold shift, at_time, as_sample, delay, time, coords.
  cbn [fst snd tick]. fold (tick p). rewrite sub_exact by assumption.
  reflexivity.
Qed.

Lemma collapse_cases (thr d : Z) :
  ((thr < d)%Z /\ collapse thr d = 0%Z)
  \/ ((d <= thr)%Z /\ collapse thr d = d).
Proof.
  unfold collapse. rewrite Z.gtb_ltb.
  destruct (Z.ltb_spec thr d); [left|right]; split; auto.
Qed.

(** The loop on integer timestamps that never decrease: every
    number it computes is an integer within the bound, the output
    keeps the positions, and each of its gaps is the matching input
    gap, or zero where that was a break. *)
Lemma skip_loop_stamped (thr : Z) :
  (Z.abs thr <= bound)%Z ->
  forall (events : list (stamped T)) (total t_prev : Z),
    (0 <= total)%Z ->
    (2 * Z.abs t_prev <= bound)%Z ->
    (2 * Z.abs (t_prev - total) <= bound)%Z ->
    ticks_within bound events ->
    Forall (fun d => (0 <= d)%Z) (tick_diffs t_prev events) ->
    exists out,
      Replay.skip_loop #thr (map as_sample events) #total #t_prev []
      = map as_sample out
      /\ map position out = map position events
      /\ tick_diffs (t_prev - total) out
         = map (collapse thr) (tick_diffs t_prev events)
      /\ ticks_within bound out.
Proof.
  intros Hthr.
  induction events as [|p rest IH];
    intros total t_prev Htot Hprev Hout Hin Hord.
  - exists []. repeat split; constructor.
  - apply Forall_cons_iff in Hin as [Hp Hin].
    cbn [tick_diffs] in Hord. apply Forall_cons_iff in Hord as [Hdt Hord].
    cbn [map]. rewrite skip_loop_cons. cbv zeta.
    change (time (as_sample p)) with #(tick p).
    rewrite sub_exact by lia. rewrite ltb_exact by lia.
    destruct (collapse_cases thr (tick p - t_prev)) as [[Hlt Hc]|[Hle Hc]].
    + replace (thr <? tick p - t_prev)%Z with true
        by (symmetry; apply Z.ltb_lt; exact Hlt).
      rewrite add_exact by lia.
      destruct (IH (total + (tick p - t_prev))%Z (tick p))
        as (out & Hrun & Hpos & Hgaps & Hw); try assumption; try lia.
      exists (delay (total + (tick p - t_prev)) p :: out).
      rewrite Hrun, shift_as_sample by lia.
      split; [reflexivity|]. split; [cbn [map]; now rewrite Hpos|].
      split.
      * cbn [tick_diffs map]. rewrite Hc.
        f_equal; [unfold delay, tick; cbn [fst]; lia|].
        rewrite <- Hgaps. f_equal.
      * constructor; [|exact Hw]. unfold delay, tick. cbn [fst].
        fold (tick p). lia.
    + replace (thr <? tick p - t_prev)%Z with false
        by (symmetry; apply Z.ltb_ge; exact Hle).
      destruct (IH total (tick p))
        as (out & Hrun & Hpos & Hgaps & Hw); try assumption; try lia.
      exists (delay total p :: out).
      rewrite Hrun, shift_as_sample by lia.
      split; [reflexivity|]. split; [cbn [map]; now rewrite Hpos|].
      split.
      * cbn [tick_diffs map]. rewrite Hc.
        f_equal; [unfold delay, tick; cbn [fst]; lia|].
        rewrite <- Hgaps. f_equal.
      * constructor; [|exact Hw]. unfold delay, tick. cbn [fst].
        fold (tick p). lia.
Qed.

Lemma ordered_tick_diffs (l : list (stamped T)) :
  forall t_prev : Z,
    Forall (fun d => (0 <= d)%Z) (tick_diffs t_prev l)
    <-> (ticks_ordered l
         /\ match l with [] => True | p :: _ => (t_prev <= tick p)%Z end).
Proof.
  unfold ticks_ordered.
  induction l as [|p l IH]; intros t_prev; cbn [tick_diffs].
  - split; [intros _; split; [constructor|exact I]|constructor].
  - rewrite Forall_cons_iff, IH. split.
    + intros [H0 [Hs Hh]]. split; [|lia].
      constructor; [exact Hs|]. destruct l; constructor. exact Hh.
    + intros [Hs H0]. split; [lia|].
      apply Sorted_inv in Hs as [Hs Hh]. split; [exact Hs|].
      destruct l as [|p' l]; [exact I|].
      apply HdRel_inv in Hh. exact Hh.
Qed.

Lemma ordered_tick_gaps (p : stamped T) (l : list (stamped T)) :
  ticks_ordered (p :: l)
  <-> Forall (fun d => (0 <= d)%Z) (tick_diffs (tick p) l).
Proof.
  rewrite ordered_tick_diffs. unfold ticks_ordered. split.
  - intros H. apply Sorted_inv in H as [Hs Hh]. split; [exact Hs|].
    destruct l as [|p' l]; [exact I|]. apply HdRel_inv in Hh. exact Hh.
  - intros [Hs Hh]. constructor; [exact Hs|].
    destruct l; constructor. exact Hh.
Qed.

(** A list of integer-stamped samples is known from its positions
    and the differences of its timestamps. *)
Lemma stamped_determined :
  forall (l1 l2 : list (stamped T)) (t_prev : Z),
    map position l1 = map position l2 ->
    tick_diffs t_prev l1 = tick_diffs t_prev l2 ->
    l1 = l2.
Proof.
  induction l1 as [|p1 l1 IH]; intros [|p2 l2] t_prev Hp Hd;
    try discriminate; [reflexivity|].
  cbn [map tick_diffs] in Hp, Hd. injection Hd as Ht Hd.
  assert (Hps : map position l1 = map position l2) by (injection Hp; auto).
  assert (E : p1 = p2).
  { destruct p1 as [[t1 x1] y1], p2 as [[t2 x2] y2].
    unfold position, tick in *. cbn [fst snd] in *.
    injection Hp as -> -> _. replace t2 with t1 by lia. reflexivity. }
  subst p2. f_equal. apply (IH l2 (tick p1)); assumption.
Qed.

Lemma collapse_collapse (thr d : Z) :
  collapse thr (collapse thr d) = collapse thr d.
Proof.
  unfold collapse. destruct (d >? thr)%Z eqn:E; [|now rewrite E].
  destruct (0 >? thr)%Z; reflexivity.
Qed.

Lemma collapse_le (thr d : Z) : (0 <= thr)%Z -> (collapse thr d <= thr)%Z.
Proof. destruct (collapse_cases thr d) as [[_ ->]|[H ->]]; lia. Qed.

Lemma collapse_nonneg (thr d : Z) : (0 <= d)%Z -> (0 <= collapse thr d)%Z.
Proof. destruct (collapse_cases thr d) as [[_ ->]|[_ ->]]; lia. Qed.

Lemma collapse_small (thr : Z) (l : list Z) :
  (forall k d, nth_error l k = Some d -> (d <= thr)%Z) ->
  map (collapse thr) l = l.
Proof.
  induction l as [|d l IH]; intros H; [reflexivity|].
  cbn [map]. f_equal.
  - destruct (collapse_cases thr d) as [[Hlt _]|[_ E]]; [|exact E].
    specialize (H O d eq_refl). lia.
  - apply IH. intros k d' Hk. apply (H (S k) d' Hk).
Qed.

Lemma tick_diffs_delay (g : Z) :
  forall (l : list (stamped T)) (t : Z),
    tick_diffs (t - g) (map (delay g) l) = tick_diffs t l.
Proof.
  induction l as [|p l IH]; intros t; [reflexivity|].
  cbn [map tick_diffs]. change (tick (delay g p)) with (tick p - g)%Z.
  rewrite IH. f_equal. lia.
Qed.

(** The gaps of a trace after its single break was taken out of the
    timestamps that follow it. *)
Lemma tick_diffs_one_break (thr g : Z) :
  forall (i : nat) (l : list (stamped T)) (t_prev : Z),
    nth_error (tick_diffs t_prev l) i = Some g ->
    (thr < g)%Z ->
    (forall k d, k <> i -> nth_error (tick_diffs t_prev l) k = Some d ->
                 (d <= thr)%Z) ->
    tick_diffs t_prev (firstn i l ++ map (delay g) (skipn i l))
    = map (collapse thr) (tick_diffs t_prev l).
Proof.
  induction i as [|i IH]; intros [|p l] t_prev Hi Hg Hd;
    try discriminate Hi; cbn [tick_diffs] in Hi, Hd.
  - injection Hi as Hi. cbn [firstn skipn app map tick_diffs].
    change (tick (delay g p)) with (tick p - g)%Z.
    rewrite tick_diffs_delay. f_equal.
    + destruct (collapse_cases thr (tick p - t_prev)) as [[_ ->]|[H _]]; lia.
    + symmetry. apply collapse_small. intros k d Hk.
      apply (Hd (S k) d); [discriminate|exact Hk].
  - cbn [nth_error] in Hi. cbn [firstn skipn app map tick_diffs]. f_equal.
    + destruct (collapse_cases thr (tick p - t_prev)) as [[H _]|[_ ->]];
        [|reflexivity].
      specialize (Hd O (tick p - t_prev)%Z (Nat.neq_0_succ i) eq_refl). lia.
    + apply IH; [exact Hi|exact Hg|].
      intros k d Hne Hk. apply (Hd (S k) d); [congruence|exact Hk].
Qed.

(** What [skip_breaks] returns on integer timestamps that never
    decrease. *)
Lemma skip_breaks_stamped (thr : Z) (first : stamped T)
    (rest : list (stamped T)) :
  (Z.abs thr <= bound)%Z ->
  ticks_within bound (first :: rest) ->
  ticks_ordered (first :: rest) ->
  exists out,
    Replay.skip_breaks (map as_sample (first :: rest)) #thr
    = Ok (map as_sample (first :: out))
    /\ map position out = map position rest
    /\ tick_diffs (tick first) out
       = map (collapse thr) (tick_diffs (tick first) rest)
    /\ ticks_within bound (first :: out).
Proof.
  intros Hthr Hin Hord.
  pose proof (Forall_inv Hin) as Hfirst. cbv beta in Hfirst.
  assert (Hdiffs : Forall (fun d => (0 <= d)%Z)
                     (tick_diffs (tick first) (first :: rest))).
  { cbn [tick_diffs]. constructor; [lia|].
    apply ordered_tick_gaps. exact Hord. }
  destruct (skip_loop_stamped thr Hthr (first :: rest) 0 (tick first))
    as (out0 & Hrun & Hpos & Hgaps & Hw);
    try assumption; try lia.
  destruct out0 as [|o out]; [discriminate Hpos|].
  cbn [map tick_diffs] in Hpos, Hgaps. injection Hgaps as Ht Hgaps.
  assert (Hpos' : map position out = map position rest)
    by (injection Hpos; auto).
  assert (E : o = first).
  { assert (Ht' : tick o = tick first).
    { destruct (collapse_cases thr (tick first - tick first))
        as [[_ Hc]|[_ Hc]]; rewrite Hc in Ht; lia. }
    destruct o as [[t1 x1] y1], first as [[t2 x2] y2].
    unfold position, tick in *. cbn [fst snd] in *.
    injection Hpos as -> -> _. now subst t1. }
  subst o. clear Hpos. rename Hpos' into Hpos. exists out.
  split; [|split; [exact Hpos|split; [exact Hgaps|exact Hw]]].
  unfold Replay.skip_breaks.
  cbn [map getitem Z.ltb Z.compare Z.to_nat nth_error bind].
  change (time (as_sample first)) with #(tick first).
  f_equal. exact Hrun.
Qed.

(** C7, as the code has it: on integer timestamps that never
    decrease, in a number type that holds them exactly, and for an
    integer threshold that is not negative, an input whose only gap
    above the threshold is the gap [g] between samples [i] and [i+1]
    comes back with the samples up to [i] unchanged and the later
    ones moved back by exactly [g]; the positions and the length are
    those of the input and no gap of the output is above the
    threshold. *)
Theorem skip_breaks_single_break
    (trace : list (stamped T)) (break_threshold g : Z) (i : nat) :
  (0 <= break_threshold <= bound)%Z ->
  ticks_within bound trace ->
  ticks_ordered trace ->
  nth_error (tick_gaps trace) i = Some g ->
  (break_threshold < g)%Z ->
  (forall k d, k <> i -> nth_error (tick_gaps trace) k = Some d ->
               (d <= break_threshold)%Z) ->
  exists skipped,
    Replay.skip_breaks (map as_sample trace) #break_threshold
    = Ok (map as_sample skipped)
    /\ skipped = firstn (S i) trace ++ map (delay g) (skipn (S i) trace)
    /\ map position skipped = map position trace
    /\ List.length skipped = List.length trace
    /\ Forall (fun d => (d <= break_threshold)%Z) (tick_gaps skipped).
Proof.
  intros Hthr Hin Hord Hi Hg Hd.
  destruct trace as [|first rest]; [destruct i; discriminate Hi|].
  cbn [tick_gaps] in Hi, Hd.
  destruct (skip_breaks_stamped break_threshold first rest)
    as (out & Hrun & Hpos & Hgaps & _); try assumption; try lia.
  assert (E : out = firstn i rest ++ map (delay g) (skipn i rest)).
  { apply (stamped_determined _ _ (tick first)).
    - rewrite Hpos, map_app, map_map.
      rewrite (map_ext (fun p => position (delay g p)) position)
        by reflexivity.
      rewrite <- map_app, firstn_skipn. reflexivity.
    - rewrite Hgaps. symmetry.
      apply tick_diffs_one_break; assumption. }
  exists (first :: out). split; [exact Hrun|].
  split; [rewrite E; reflexivity|].
  split; [cbn [map]; now rewrite Hpos|].
  split.
  - cbn [List.length]. f_equal.
    rewrite <- (length_map position out), Hpos. apply length_map.
  - cbn [tick_gaps]. rewrite Hgaps. apply Forall_forall.
    intros d Hin'. apply in_map_iff in Hin' as (d' & <- & _).
    apply collapse_le. lia.
Qed.

(** X14: on integer timestamps that never decrease [skip_breaks]
    keeps the first sample, and each gap of its output is the
    matching gap of the input when that is not above the threshold
    and 0 when it is. *)
Theorem skip_breaks_collapses_breaks
    (trace : list (stamped T)) (break_threshold : Z) :
  trace <> [] ->
  (Z.abs break_threshold <= bound)%Z ->
  ticks_within bound trace ->
  ticks_ordered trace ->
  exists skipped,
    Replay.skip_breaks (map as_sample trace) #break_threshold
    = Ok (map as_sample skipped)
    /\ hd_error skipped = hd_error trace
    /\ tick_gaps skipped
       = map (collapse break_threshold) (tick_gaps trace).
Proof.
  intros Hne Hthr Hin Hord.
  destruct trace as [|first rest]; [congruence|].
  destruct (skip_breaks_stamped break_threshold first rest Hthr Hin Hord)
    as (out & Hrun & _ & Hgaps & _).
  exists (first :: out). split; [exact Hrun|].
  split; [reflexivity|exact Hgaps].
Qed.

(** X15: on integer timestamps that never decrease and for a
    threshold that is not negative, no gap of the output is above
    the threshold, however many breaks the input has. *)
Theorem skip_breaks_leaves_no_break
    (trace : list (stamped T)) (break_threshold : Z) :
  trace <> [] ->
  (0 <= break_threshold <= bound)%Z ->
  ticks_within bound trace ->
  ticks_ordered trace ->
  exists skipped,
    Replay.skip_breaks (map as_sample trace) #break_threshold
    = Ok (map as_sample skipped)
    /\ Forall (fun d => (d <= break_threshold)%Z) (tick_gaps skipped).
Proof.
  intros Hne Hthr Hin Hord.
  destruct trace as [|first rest]; [congruence|].
  destruct (skip_breaks_stamped break_threshold first rest)
    as (out & Hrun & _ & Hgaps & _); try assumption; try lia.
  exists (first :: out). split; [exact Hrun|].
  cbn [tick_gaps]. rewrite Hgaps. apply Forall_forall.
  intros d Hd. apply in_map_iff in Hd as (d' & <- & _).
  apply collapse_le. lia.
Qed.

(** X17: on integer timestamps that never decrease the timestamps
    of the output never decrease either. *)
Theorem skip_breaks_keeps_time_order
    (trace : list (stamped T)) (break_threshold : Z) :
  trace <> [] ->
  (Z.abs break_threshold <= bound)%Z ->
  ticks_within bound trace ->
  ticks_ordered trace ->
  exists skipped,
    Replay.skip_breaks (map as_sample trace) #break_threshold
    = Ok (map as_sample skipped)
    /\ ticks_ordered skipped.
Proof.
  intros Hne Hthr Hin Hord.
  destruct trace as [|first rest]; [congruence|].
  destruct (skip_breaks_stamped break_threshold first rest Hthr Hin Hord)
    as (out & Hrun & _ & Hgaps & _).
  exists (first :: out). split; [exact Hrun|].
  apply ordered_tick_gaps. rewrite Hgaps.
  apply ordered_tick_gaps in Hord. apply Forall_forall.
  intros d Hd. apply in_map_iff in Hd as (d' & <- & Hd').
  rewrite Forall_forall in Hord. apply collapse_nonneg, Hord, Hd'.
Qed.

(** X16: on integer timestamps that never decrease, skipping the
    breaks of what [skip_breaks] returned changes nothing. *)
Theorem skip_breaks_idempotent
    (trace : list (stamped T)) (break_threshold : Z) :
  trace <> [] ->
  (Z.abs break_threshold <= bound)%Z ->
  ticks_within bound trace ->
  ticks_ordered trace ->
  exists skipped,
    Replay.skip_breaks (map as_sample trace) #break_threshold
    = Ok (map as_sample skipped)
    /\ Replay.skip_breaks (map as_sample skipped) #break_threshold
       = Ok (map as_sample skipped).
Proof.
  intros Hne Hthr Hin Hord.
  destruct trace as [|first rest]; [congruence|].
  destruct (skip_breaks_stamped break_threshold first rest Hthr Hin Hord)
    as (out & Hrun & Hpos & Hgaps & Hw).
  exists (first :: out). split; [exact Hrun|].
  assert (Hord' : ticks_ordered (first :: out)).
  { apply ordered_tick_gaps. rewrite Hgaps.
    apply ordered_tick_gaps in Hord. apply Forall_forall.
    intros d Hd. apply in_map_iff in Hd as (d' & <- & Hd').
    rewrite Forall_forall in Hord. apply collapse_nonneg, Hord, Hd'. }
  destruct (skip_breaks_stamped break_threshold first out Hthr Hw Hord')
    as (out' & Hrun' & Hpos' & Hgaps' & _).
  rewrite Hrun'. do 3 f_equal.
  apply (stamped_determined _ _ (tick first)); [exact Hpos'|].
  rewrite Hgaps', Hgaps, map_map. apply map_ext.
  intros d. apply collapse_collapse.
Qed.
End IntegerTimes.

Lemma skip_breaks_single_break_witness :
  exists skipped,
    Replay.skip_breaks (map as_sample paused_ticks) (of_Z 1000)
    = Ok (map as_sample skipped)
    /\ skipped = firstn 2 paused_ticks
                 ++ map (delay 1997) (skipn 2 paused_ticks)
    /\ map position skipped = map position paused_ticks
    /\ List.length skipped = List.length paused_ticks
    /\ Forall (fun d => (d <= 1000)%Z) (tick_gaps skipped).
Proof.
  apply (skip_breaks_single_break (2 ^ 53) (Qc_exact_integers (2 ^ 53))
           paused_ticks 1000 1997 1).
  - split; vm_compute; discriminate.
  - repeat constructor; vm_compute; discriminate.
  - repeat constructor; vm_compute; discriminate.
  - reflexivity.
  - reflexivity.
  - intros [|[|[|k]]] d Hne Hk; try congruence;
      try (inversion Hk; subst d; vm_compute; discriminate).
    destruct k; discriminate Hk.
Defined.

(** The same trace in floats, where integers of this size are exact
    as well, comes back with the same timestamps. *)
Lemma skip_breaks_paused_in_floats :
  Replay.skip_breaks [fpt 0 0 0; fpt 3 1 1; fpt 2000 5 5; fpt 2001 6 6]
    1000%float
  = Ok [fpt 0 0 0; fpt 3 1 1; fpt 3 5 5; fpt 4 6 6].
Proof. vm_compute. reflexivity. Qed.

(** ** [Replay.resample] *)

Section SeekFacts.
Context {T : Type} {N : Number T}.
Local Open Scope num_scope.

Lemma getitem_last {A : Type} (l : list A) (a : A) :
  getitem l (-1) = Ok a ->
  (0 < List.length l)%nat /\ nth_error l (List.length l - 1) = Some a.
Proof.
  unfold getitem, len. cbn [Z.ltb Z.compare].
  destruct (Z.ltb_spec (-1 + Z.of_nat (List.length l)) 0) as [|Hk];
    [discriminate|].
  replace (Z.to_nat (-1 + Z.of_nat (List.length l)))
    with (List.length l - 1)%nat by lia.
  destruct (nth_error l _) eqn:E; [|discriminate].
  intros H; inversion H; subst. split; [lia|reflexivity].
Qed.

(** The inner loop stops at the first sample from [i] on that is not
    before [t], provided there is one. *)
Lemma seek_finds (timestamped : list (sample T)) (t : T) :
  forall (k i m : nat) (p : sample T),
    (i + k = List.length timestamped)%nat ->
    (i <= m)%nat -> nth_error timestamped m = Some p ->
    (time p <? t) = false ->
    exists (i' : nat) (p' : sample T),
      Replay.seek timestamped t k i = Ok i'
      /\ (i <= i' <= m)%nat
      /\ nth_error timestamped i' = Some p'
      /\ (time p' <? t) = false
      /\ (forall j q', (i <= j < i')%nat ->
                       nth_error timestamped j = Some q' ->
                       (time q' <? t) = true).
Proof.
  induction k as [|k IH]; intros i m p Hk Him Hm Hp.
  - assert (m < List.length timestamped)%nat
      by (apply nth_error_Some; congruence).
    lia.
  - simpl.
    destruct (getitem_nat timestamped i) as (q' & Hq & Hn); [lia|].
    rewrite Hq; simpl.
    destruct (time q' <? t) eqn:E.
    + assert (i <> m) by (intros ->; congruence).
      destruct (IH (S i) m p) as (i' & p' & Hs & Hr & Hn' & Hp' & Hb);
        try assumption; try lia.
      exists i', p'. repeat split; try assumption; try lia.
      intros j q0 Hj Hq0.
      destruct (Nat.eq_dec j i) as [->|Hne]; [congruence|].
      apply (Hb j q0); [lia|exact Hq0].
    + exists i, q'. repeat split; try assumption; try lia.
Qed.
End SeekFacts.

(** Order and rounding facts on the rationals that the loop of
    [resample] needs. *)

Section RationalArithmetic.
Local Open Scope Qc_scope.

Lemma Qc_lt_plus_pos (t s : Qc) : 0 < s -> t < t + s.
Proof.
  intros H. apply Qclt_minus_iff.
  replace (t + s + - t) with s by ring. exact H.
Qed.

Lemma Qc_minus_neq_0 (a b : Qc) : b < a -> a - b <> num 0.
Proof.
  intros H E. apply (Qclt_not_eq _ _ H).
  change (num 0) with 0 in E.
  replace a with (a - b + b) by ring. rewrite E. ring.
Qed.

Lemma Qc_minus_neq_0' (a b : Qc) : a < b -> a - b <> num 0.
Proof.
  intros H E. apply (Qclt_not_eq _ _ H).
  change (num 0) with 0 in E.
  replace a with (a - b + b) by ring. rewrite E. ring.
Qed.

Lemma Qc_inv_pos (a : Qc) : 0 < a -> 0 < / a.
Proof.
  intros H. unfold Qclt in *. simpl. rewrite Qred_correct.
  apply Qinv_lt_0_compat. exact H.
Qed.

Lemma Qc_div_pos (a s : Qc) : 0 < a -> 0 < s -> 0 < a / s.
Proof.
  intros Ha Hs. unfold Qcdiv.
  replace 0 with (0 * / s) by ring.
  apply Qcmult_lt_compat_r; [apply Qc_inv_pos; exact Hs|exact Ha].
Qed.

Lemma Qc_div_nonpos (a s : Qc) : a <= 0 -> 0 < s -> a / s <= 0.
Proof.
  intros Ha Hs. unfold Qcdiv.
  replace 0 with (0 * / s) by ring.
  apply Qcmult_le_compat_r; [exact Ha|].
  apply Qclt_le_weak, Qc_inv_pos, Hs.
Qed.

Lemma Qceiling_unique (x : Q) (z : Z) :
  (inject_Z z - 1 < x)%Q -> (x <= inject_Z z)%Q -> Qceiling x = z.
Proof.
  intros Hlo Hhi.
  pose proof (Qle_ceiling x) as H1. pose proof (Qceiling_lt x) as H2.
  assert (A1 : (inject_Z (Qceiling x - 1) < inject_Z z)%Q)
    by (eapply Qlt_le_trans; eassumption).
  assert (A2 : (inject_Z (z - 1) < inject_Z (Qceiling x))%Q).
  { eapply Qlt_le_trans; [|exact H1].
    unfold Zminus. rewrite inject_Z_plus. exact Hlo. }
  rewrite <- Zlt_Qlt in A1, A2. lia.
Qed.

Lemma Qceiling_minus_1 (x : Q) : Qceiling (x - 1)%Q = (Qceiling x - 1)%Z.
Proof.
  pose proof (Qceiling_lt x) as Hlo. pose proof (Qle_ceiling x) as Hhi.
  apply Qceiling_unique; unfold Zminus in *;
    rewrite inject_Z_plus in *;
    generalize dependent (inject_Z (Qceiling x)); intros c Hlo Hhi;
    cbv [inject_Z Z.opp] in *; lra.
Qed.
End RationalArithmetic.

Section ResampleFacts.
Local Open Scope Qc_scope.
Variables (timestamped : list (sample Qc)) (frequency : Qc).
Variables (first last : sample Qc).
Hypothesis Hfirst : getitem timestamped 0 = Ok first.
Hypothesis Hlast : getitem timestamped (-1) = Ok last.
Hypothesis Hspan : time first < time last.
Hypothesis Hfreq : 0 < frequency.

Lemma step_pos : 0 < num 1000 / frequency.
Proof. apply Qc_div_pos; [reflexivity|exact Hfreq]. Qed.

Lemma pydiv_step :
  pydiv (of_Z 1000) frequency = Ok (num 1000 / frequency).
Proof.
  unfold pydiv.
  assert (E : eqb frequency (of_Z 0) = false).
  { apply Qc_eqb_neq. intros E. rewrite E in Hfreq.
    revert Hfreq. apply Qcle_not_lt, Qcle_refl. }
  rewrite E. reflexivity.
Qed.

Lemma pydiv_nonzero (a b : Qc) : b <> num 0 -> pydiv a b = Ok (a / b).
Proof.
  intros H. unfold pydiv.
  assert (E : eqb b (of_Z 0) = false) by (apply Qc_eqb_neq; exact H).
  rewrite E. reflexivity.
Qed.

Lemma rounds_done (t : Qc) :
  rounds (num 1000 / frequency) (time last) t = O ->
  ltb t (time last) = false.
Proof.
  unfold rounds. intros H. apply Qc_ltb_ge. apply Qcnot_lt_le. intros Hlt.
  assert (Hpos : 0 < (time last - t) / (num 1000 / frequency)).
  { apply Qc_div_pos; [|apply step_pos].
    apply Qclt_minus_iff in Hlt. exact Hlt. }
  pose proof (Qle_ceiling (this ((time last - t) / (num 1000 / frequency))))
    as Hc.
  assert (Hz : (0 < Qceiling
                    (this ((time last - t) / (num 1000 / frequency))))%Z).
  { rewrite Zlt_Qlt. eapply Qlt_le_trans; [exact Hpos|exact Hc]. }
  lia.
Qed.

Lemma rounds_step (t : Qc) (n : nat) :
  rounds (num 1000 / frequency) (time last) t = S n ->
  ltb t (time last) = true
  /\ rounds (num 1000 / frequency) (time last)
            (t + num 1000 / frequency) = n.
Proof.
  unfold rounds. pose proof step_pos as Hs.
  set (s := num 1000 / frequency) in *. intros H.
  assert (Hlt : t < time last).
  { apply Qcnot_le_lt. intros Hle.
    assert (Hx : (time last - t) / s <= 0).
    { apply Qc_div_nonpos; [|exact Hs].
      apply Qcle_minus_iff in Hle.
      apply Qcopp_le_compat in Hle.
      replace (- (t + - time last)) with (time last - t) in Hle by ring.
      exact Hle. }
    apply Qceiling_resp_le in Hx.
    change (Qceiling (this 0)) with 0%Z in Hx. lia. }
  split; [apply Qc_ltb_lt; exact Hlt|].
  assert (E : (time last - (t + s)) / s = (time last - t) / s - 1).
  { field. intros E. rewrite E in Hs. revert Hs.
    apply Qcle_not_lt, Qcle_refl. }
  rewrite E.
  assert (E' : (this ((time last - t) / s - 1)
                == this ((time last - t) / s) - 1)%Q).
  { rewrite this_minus. reflexivity. }
  rewrite E', Qceiling_minus_1. lia.
Qed.
End ResampleFacts.

Lemma resample_loop_S {T : Type} {N : Number T} (fuel : nat)
    (timestamped : list (sample T)) (frequency t_max : T) (i : nat) (t : T)
    (resampled : list (sample T)) :
  Replay.resample_loop (S fuel) timestamped frequency t_max i t resampled
  = if ltb t t_max then
      i <- Replay.seek timestamped t (List.length timestamped - i) i ;;
      p0 <- getitem timestamped (Z.of_nat i - 1) ;;
      p1 <- getitem timestamped (Z.of_nat i) ;;
      r <- pydiv (sub t (time p0)) (sub (time p1) (time p0)) ;;
      step <- pydiv (of_Z 1000) frequency ;;
      Replay.resample_loop fuel timestamped frequency t_max i (add t step)
        (resampled
         ++ [at_time t (Interpolation.linear (coords p0) (coords p1) r)])
    else Ok resampled.
Proof. reflexivity. Qed.

Lemma resample_loop_stop {T : Type} {N : Number T} (fuel : nat)
    (timestamped : list (sample T)) (frequency t_max : T) (i : nat) (t : T)
    (resampled : list (sample T)) :
  ltb t t_max = false ->
  Replay.resample_loop fuel timestamped frequency t_max i t resampled
  = Ok resampled.
Proof.
  intros H. destruct fuel; [cbn [Replay.resample_loop]|rewrite resample_loop_S];
    rewrite H; reflexivity.
Qed.

Section ResampleLoop.
Local Open Scope Qc_scope.
Variables (timestamped : list (sample Qc)) (frequency : Qc).
Variables (first last : sample Qc).
Hypothesis Hfirst : getitem timestamped 0 = Ok first.
Hypothesis Hlast : getitem timestamped (-1) = Ok last.
Hypothesis Hspan : time first < time last.
Hypothesis Hfreq : 0 < frequency.

Lemma resample_iteration (i : nat) (t : Qc) :
  cursor_ok timestamped i t -> t < time last ->
  exists (i' : nat) (p : sample Qc),
    cursor_ok timestamped i' (t + num 1000 / frequency)
    /\ time p = t
    /\ forall fuel acc,
        Replay.resample_loop (S fuel) timestamped frequency (time last)
          i t acc
        = Replay.resample_loop fuel timestamped frequency (time last)
            i' (t + num 1000 / frequency) (acc ++ [p]).
Proof.
  intros [Hi Hprev] Hlt.
  destruct (getitem_last _ _ Hlast) as [Hlen HL].
  destruct (seek_finds timestamped t (List.length timestamped - i) i
              (List.length timestamped - 1) last)
    as (i' & p' & Hseek & Hr & Hn' & Hp' & Hb);
    [lia|lia|exact HL|apply Qc_ltb_ge, Qclt_le_weak, Hlt|].
  apply Qc_ltb_ge in Hp'.
  assert (Hpred : forall m p, i' = S m ->
                              nth_error timestamped m = Some p ->
                              time p < t).
  { intros m p Hm Hp. destruct (le_lt_dec i m) as [Hle|Hgt].
    - apply Qc_ltb_lt. apply (Hb m p); [lia|exact Hp].
    - apply (Hprev m p); [lia|exact Hp]. }
  assert (Hp1 : getitem timestamped (Z.of_nat i') = Ok p').
  { destruct (getitem_nat timestamped i') as (a & Ha & Hn); [lia|].
    congruence. }
  assert (Hp0 : exists p0,
             getitem timestamped (Z.of_nat i' - 1) = Ok p0
             /\ time p' - time p0 <> num 0).
  { destruct i' as [|m].
    - exists last. split; [exact Hlast|].
      apply getitem_0 in Hfirst as [l' Hl']. rewrite Hl' in Hn'.
      inversion Hn'; subst p'. apply Qc_minus_neq_0'. exact Hspan.
    - destruct (getitem_nat timestamped m) as (p0 & Hq & Hn); [lia|].
      exists p0. split.
      + replace (Z.of_nat (S m) - 1)%Z with (Z.of_nat m) by lia. exact Hq.
      + apply Qc_minus_neq_0. eapply Qclt_le_trans; [|exact Hp'].
        apply (Hpred m p0); [reflexivity|exact Hn]. }
  destruct Hp0 as (p0 & Hp0 & Hdt2).
  eexists i', _. split; [|split; [|intros fuel acc]].
  - split; [lia|]. intros m p Hm Hp.
    eapply Qclt_trans; [apply (Hpred m p Hm Hp)|].
    apply Qc_lt_plus_pos, step_pos, Hfreq.
  - shelve.
  - rewrite resample_loop_S.
    apply Qc_ltb_lt in Hlt. rewrite Hlt, Hseek. cbn [bind].
    rewrite Hp0, Hp1. cbn [bind].
    rewrite (pydiv_nonzero _ _ Hdt2). cbn [bind].
    rewrite (pydiv_step frequency Hfreq). cbn [bind].
    reflexivity.
  Unshelve. reflexivity.
Qed.

Lemma resample_loop_runs :
  forall (n i : nat) (t : Qc),
    rounds (num 1000 / frequency) (time last) t = n ->
    cursor_ok timestamped i t ->
    exists out,
      map time out = times (num 1000 / frequency) t n
      /\ forall fuel acc,
          (n <= fuel)%nat ->
          Replay.resample_loop fuel timestamped frequency (time last)
            i t acc
          = Ok (acc ++ out).
Proof.
  induction n as [|n IH]; intros i t Hn Hc.
  - exists []. split; [reflexivity|]. intros fuel acc _.
    rewrite app_nil_r.
    apply resample_loop_stop. apply (rounds_done frequency last Hfreq t Hn).
  - destruct (rounds_step frequency last Hfreq t n Hn) as [Hlt Hn'].
    apply Qc_ltb_lt in Hlt.
    destruct (resample_iteration i t Hc Hlt) as (i' & p & Hc' & Hp & Hrun).
    destruct (IH i' _ Hn' Hc') as (out & Htimes & Hout).
    exists (p :: out). split.
    + simpl. rewrite Hp, Htimes. reflexivity.
    + intros fuel acc Hfuel. destruct fuel as [|fuel]; [lia|].
      rewrite Hrun, Hout, <- app_assoc; [reflexivity|lia].
Qed.
End ResampleLoop.

Section ResampleInstants.
Context {T : Type} {N : Number T}.
Local Open Scope num_scope.
Variables (timestamped : list (sample T)) (frequency step : T).
Variables (first last : sample T).
Hypothesis Hfirst : getitem timestamped 0 = Ok first.
Hypothesis Hlast : getitem timestamped (-1) = Ok last.
Hypothesis Hstep : pydiv #1000 frequency = Ok step.
Hypothesis Hgaps : distinct_neighbours timestamped = true.

(** One round of the loop at a time [t] before the last timestamp:
    the cursor stays in the list, a sample at [t] is appended and the
    time moves on by one addition of the step. *)
Lemma resample_round (i : nat) (t : T) :
  (i < List.length timestamped)%nat ->
  precedes t (time last) = true ->
  exists (i' : nat) (p : sample T),
    (i' < List.length timestamped)%nat
    /\ time p = t
    /\ forall fuel acc,
        Replay.resample_loop (S fuel) timestamped frequency (time last)
          i t acc
        = Replay.resample_loop fuel timestamped frequency (time last)
            i' (t + step) (acc ++ [p]).
Proof.
  intros Hi Hpre. apply andb_true_iff in Hpre as [Hlt Hge].
  apply negb_true_iff in Hge.
  destruct (getitem_last _ _ Hlast) as [Hlen HL].
  destruct (seek_finds timestamped t (List.length timestamped - i) i
              (List.length timestamped - 1) last)
    as (i' & p' & Hseek & Hr & Hn' & _); [lia|lia|exact HL|exact Hge|].
  assert (Hp1 : getitem timestamped (Z.of_nat i') = Ok p').
  { destruct (getitem_nat timestamped i') as (a & Ha & Hn); [lia|].
    congruence. }
  assert (Hp0 : exists p0, getitem timestamped (Z.of_nat i' - 1) = Ok p0).
  { destruct i' as [|m].
    - exists last. exact Hlast.
    - destruct (getitem_nat timestamped m) as (p0 & Hq & _); [lia|].
      exists p0.
      replace (Z.of_nat (S m) - 1)%Z with (Z.of_nat m) by lia. exact Hq. }
  destruct Hp0 as [p0 Hp0].
  assert (Hdt2 : (time p' - time p0 =? #0) = false).
  { pose proof Hgaps as Hall. unfold distinct_neighbours in Hall.
    rewrite forallb_forall in Hall. specialize (Hall i').
    rewrite Hp0, Hp1 in Hall. apply negb_true_iff, Hall, in_seq. lia. }
  exists i',
    (at_time t (Interpolation.linear (coords p0) (coords p')
                  (div (t - time p0) (time p' - time p0)))).
  split; [lia|]. split; [reflexivity|]. intros fuel acc.
  rewrite resample_loop_S, Hlt, Hseek. cbn [bind].
  rewrite Hp0, Hp1. cbn [bind].
  unfold pydiv at 1. rewrite Hdt2. cbn [bind].
  rewrite Hstep. reflexivity.
Qed.

Lemma resample_loop_instants :
  forall (n i : nat) (t : T),
    (i < List.length timestamped)%nat ->
    forallb (fun t' => precedes t' (time last)) (times step t n) = true ->
    (instant step t n <? time last) = false ->
    exists out,
      map time out = times step t n
      /\ forall fuel acc,
          (n <= fuel)%nat ->
          Replay.resample_loop fuel timestamped frequency (time last)
            i t acc
          = Ok (acc ++ out).
Proof.
  induction n as [|n IH]; intros i t Hi Hbefore Hend.
  - exists []. split; [reflexivity|]. intros fuel acc _.
    rewrite app_nil_r. apply resample_loop_stop. exact Hend.
  - cbn [times forallb] in Hbefore.
    apply andb_true_iff in Hbefore as [Ht Hbefore].
    destruct (resample_round i t Hi Ht) as (i' & p & Hi' & Hp & Hrun).
    destruct (IH i' (t + step) Hi' Hbefore Hend) as (out & Htimes & Hout).
    exists (p :: out). split.
    + cbn [map times]. rewrite Hp, Htimes. reflexivity.
    + intros fuel acc Hfuel. destruct fuel as [|fuel]; [lia|].
      rewrite Hrun, Hout, <- app_assoc; [reflexivity|lia].
Qed.

End ResampleInstants.



(** * Further properties of the code *)

(** ** More on [Replay.interpolate] *)

Section InterpolateShape.
Context {T : Type} {N : Number T}.
Local Open Scope num_scope.

Lemma head_trim_suffix (data1 data2 : list (sample T)) (i : nat) :
  exists pre, data1 = pre ++ Replay.head_trim data1 data2 i.
Proof.
  unfold Replay.head_trim. destruct (_ <? _)%Z; apply slice_from_suffix.
Qed.

(** The reference of a successful call is a tail of one of the two
    inputs. *)
Lemma interpolate_reference (data1 data2 : list (sample T))
    (interpolation : Replay.interpolation_fn) (unflip : bool)
    (r : list (sample T) * list (sample T)) :
  Replay.interpolate data1 data2 interpolation unflip = Ok r ->
  exists (flipped : bool) (ref src : list (sample T))
         (c i pre : list (sample T)),
    Replay.sweep interpolation src ref 0 [] [] = Ok (c, i)
    /\ r = Replay.unflip_result unflip flipped (c, i)
    /\ (data1 = pre ++ ref \/ data2 = pre ++ ref).
Proof.
  unfold Replay.interpolate. intros H.
  bind_case H. destruct a as [[flipped d1] d2].
  apply orient_inv in E as (_ & _ & Hd).
  bind_case H.
  destruct (head_trim_suffix d1 d2 a) as [pre Hpre].
  unfold Replay.reorient in H.
  destruct (_ >? _)%Z; bind_case H; destruct a0 as [c i];
    inversion H; subst r.
  - exists (negb flipped), d2, (Replay.head_trim d1 d2 a), c, i, [].
    split; [assumption|]. split; [reflexivity|].
    destruct Hd as [[_ ->]|[_ ->]]; auto.
  - exists flipped, (Replay.head_trim d1 d2 a), d2, c, i, pre.
    split; [assumption|]. split; [reflexivity|].
    destruct Hd as [[<- _]|[<- _]]; auto.
Qed.

(** X4: the clean sequence is a run of consecutive samples of one
    of the two inputs. *)
Theorem clean_is_a_run_of_an_input
    (data1 data2 clean inter : list (sample T))
    (interpolation : Replay.interpolation_fn) :
  Replay.interpolate data1 data2 interpolation false = Ok (clean, inter) ->
  exists before after,
    data1 = before ++ clean ++ after \/ data2 = before ++ clean ++ after.
Proof.
  intros H. apply interpolate_reference in H
    as (flipped & ref & src & c & i & pre & Hs & Hr & Hpre).
  simpl in Hr. inversion Hr; subst c i.
  apply sweep_appends in Hs as (c & i & -> & _ & [rest Hrest] & _).
  simpl. exists pre, rest. rewrite <- Hrest. exact Hpre.
Qed.

(** X5: the k-th interpolated sample has the timestamp of the k-th
    clean sample. *)
Theorem interpolated_keeps_clean_timestamps
    (data1 data2 clean inter : list (sample T))
    (interpolation : Replay.interpolation_fn) :
  Replay.interpolate data1 data2 interpolation false = Ok (clean, inter) ->
  map time inter = firstn (List.length inter) (map time clean).
Proof.
  intros H. apply interpolate_inv in H
    as (flipped & ref & src & c & i & Hs & Hr & _).
  simpl in Hr. inversion Hr; subst c i.
  apply sweep_appends in Hs as (c & i & -> & -> & _ & _ & Ht & _).
  exact Ht.
Qed.

Lemma next_index_cases {A : Type} (test : A -> bool) (l : list A) :
  next_index test l = Raise StopIteration
  \/ exists i, next_index test l = Ok i /\ (i < List.length l)%nat.
Proof.
  destruct (existsb test l) eqn:E.
  - right. apply next_index_found. exact E.
  - left. apply next_index_missing. exact E.
Qed.

(** X2: [interpolate] raises [IndexError] exactly when one of its
    inputs is empty: on two non-empty inputs every index it reads is
    in range.  And it never raises [ZeroDivisionError]: its one
    division comes after the test [dt2 == 0]. *)
Theorem interpolate_index_error (data1 data2 : list (sample T))
    (interpolation : Replay.interpolation_fn) (unflip : bool) :
  (Replay.interpolate data1 data2 interpolation unflip = Raise IndexError
   <-> data1 = [] \/ data2 = [])
  /\ Replay.interpolate data1 data2 interpolation unflip
     <> Raise ZeroDivisionError.
Proof.
  destruct data1 as [|a l1].
  { split; [split; [now left|reflexivity]|discriminate]. }
  destruct data2 as [|b l2].
  { split; [split; [now right|reflexivity]|discriminate]. }
  assert (H : Replay.interpolate (a :: l1) (b :: l2) interpolation unflip
              = Raise StopIteration
              \/ exists r,
                  Replay.interpolate (a :: l1) (b :: l2) interpolation
                    unflip = Ok r).
  { rewrite interpolate_align, orient_cons.
    destruct (time a >? time b); cbn [bind fst snd];
      match goal with
      | |- context [align ?f ?d1 ?d2 _ _] =>
          assert (Hi : Replay.head_index d1 d2 = Raise StopIteration
                       \/ exists i, Replay.head_index d1 d2 = Ok i
                                    /\ (i < List.length d1)%nat)
            by (unfold Replay.head_index; cbn [getitem bind];
                apply next_index_cases);
          destruct Hi as [Hi|(i & Hi & Hlt)];
          [left; unfold align; rewrite Hi; reflexivity
          |right; apply (align_total f d1 d2 interpolation unflip i Hi Hlt);
           discriminate]
      end. }
  split; [split|].
  - intros E. destruct H as [H|[r H]]; rewrite H in E; discriminate E.
  - intros [E|E]; discriminate E.
  - intros E. destruct H as [H|[r H]]; rewrite H in E; discriminate E.
Qed.
End InterpolateShape.

(** ** Samples and order of fractions *)

Lemma at_time_eta (p : sample Qc) : at_time (time p) (coords p) = p.
Proof. destruct p as [[t x] y]. reflexivity. Qed.

(** Turn a goal on the order of [Qc] into one on [Q]. *)
Ltac qc_order :=
  unfold Qcle, Qclt in *;
  rewrite ?this_plus, ?this_mult, ?this_minus in *;
  change (this (num 0)) with 0%Q in *;
  change (this (num 1)) with 1%Q in *;
  change (this (Q2Qc 0)) with 0%Q in *;
  change (this (Q2Qc 1)) with 1%Q in *.

(** ** [Interpolation.linear] *)

Section LinearFacts.
Local Open Scope Qc_scope.

Lemma linear_at_0 (x1 x2 : Qc * Qc) :
  Interpolation.linear x1 x2 (num 0) = x1.
Proof.
  destruct x1 as [a1 b1], x2 as [a2 b2]. unfold Interpolation.linear.
  cbn [fst snd of_Z add sub mul Qc_Number].
  change (Q2Qc (inject_Z 1)) with 1. change (num 0) with 0.
  f_equal; ring.
Qed.

Lemma linear_at_1 (x1 x2 : Qc * Qc) :
  Interpolation.linear x1 x2 (num 1) = x2.
Proof.
  destruct x1 as [a1 b1], x2 as [a2 b2]. unfold Interpolation.linear.
  cbn [fst snd of_Z add sub mul Qc_Number].
  change (Q2Qc (inject_Z 1)) with 1. change (num 1) with 1.
  f_equal; ring.
Qed.
End LinearFacts.

(** ** A trace against itself *)

Section SelfAlignment.
Local Open Scope Qc_scope.

Lemma earlier_lt (p q : sample Qc) : earlier p q <-> time p < time q.
Proof. unfold earlier. apply Qc_ltb_lt. Qed.

Lemma earlier_trans (p q r : sample Qc) :
  earlier p q -> earlier q r -> earlier p r.
Proof. rewrite !earlier_lt. apply Qclt_trans. Qed.

Lemma increasing_strong (l : list (sample Qc)) :
  strictly_increasing l -> StronglySorted earlier l.
Proof.
  apply Sorted_StronglySorted. intros p q r. apply earlier_trans.
Qed.

Lemma strong_app_earlier (pre rest : list (sample Qc)) (p : sample Qc) :
  StronglySorted earlier (pre ++ p :: rest) ->
  Forall (fun q => earlier q p) pre.
Proof.
  induction pre as [|q pre IH]; simpl; intros H; [constructor|].
  apply StronglySorted_inv in H as [Hs Hq]. constructor.
  - rewrite Forall_forall in Hq. apply Hq, in_or_app. right. now left.
  - apply IH, Hs.
Qed.

Lemma strong_app_r (pre l : list (sample Qc)) :
  StronglySorted earlier (pre ++ l) -> StronglySorted earlier l.
Proof.
  induction pre as [|q pre IH]; simpl; intros H; [exact H|].
  apply IH. apply StronglySorted_inv in H. apply H.
Qed.

Lemma getitem_app (pre rest : list (sample Qc)) (p : sample Qc) :
  getitem (pre ++ p :: rest) (Z.of_nat (List.length pre)) = Ok p.
Proof.
  destruct (getitem_nat (pre ++ p :: rest) (List.length pre))
    as (a & Ha & Hn).
  - rewrite length_app. simpl. lia.
  - rewrite nth_error_app2, Nat.sub_diag in Hn by lia.
    simpl in Hn. congruence.
Qed.

(** In a strictly increasing source the cursor stops on the sample
    that has the timestamp looked for. *)
Lemma advance_to_self (pre rest : list (sample Qc)) (p : sample Qc) :
  StronglySorted earlier (pre ++ p :: rest) ->
  forall k j : nat,
    (j <= List.length pre)%nat ->
    (j + k = List.length pre + List.length rest)%nat ->
    Replay.advance (pre ++ p :: rest) (time p) k j = Ok (List.length pre).
Proof.
  intros Hs. pose proof (strong_app_earlier pre rest p Hs) as Hpre.
  induction k as [|k IH]; intros j Hj Hk; cbn [Replay.advance].
  - f_equal. lia.
  - destruct (Nat.eq_dec j (List.length pre)) as [->|Hne].
    + rewrite getitem_app. cbn [bind].
      rewrite Qc_ltb_irrefl. reflexivity.
    + destruct (getitem_nat (pre ++ p :: rest) j) as (q & Hq & Hn).
      { rewrite length_app. simpl. lia. }
      rewrite Hq. cbn [bind].
      rewrite nth_error_app1 in Hn by lia.
      apply nth_error_In in Hn. rewrite Forall_forall in Hpre.
      rewrite (Hpre q Hn). apply IH; lia.
Qed.

(** Sweeping a strictly increasing trace against itself keeps every
    sample in [clean] and interpolates every sample but the last to
    itself. *)
Lemma sweep_self (data : list (sample Qc)) :
  StronglySorted earlier data ->
  forall (rest pre clean inter : list (sample Qc)) (p : sample Qc) (j : nat),
    data = pre ++ p :: rest ->
    (j <= List.length pre)%nat ->
    Replay.sweep Interpolation.linear data (p :: rest) j clean inter
    = Ok (clean ++ p :: rest, inter ++ removelast (p :: rest)).
Proof.
  intros Hs. induction rest as [|p' rest IH];
    intros pre clean inter p j Hd Hj; subst data.
  - cbn [Replay.sweep]. unfold Replay.advance_cursor, len.
    rewrite (advance_to_self pre [] p Hs); [|exact Hj|].
    2:{ rewrite length_app. simpl. lia. }
    cbn [bind].
    replace (Z.of_nat (List.length pre) =? _)%Z with true.
    2:{ symmetry. apply Z.eqb_eq. rewrite length_app. simpl. lia. }
    simpl removelast. rewrite app_nil_r. reflexivity.
  - cbn [Replay.sweep]. unfold Replay.advance_cursor, len.
    rewrite (advance_to_self pre (p' :: rest) p Hs); [|exact Hj|].
    2:{ rewrite length_app. simpl. lia. }
    cbn [bind].
    replace (Z.of_nat (List.length pre) =? _)%Z with false.
    2:{ symmetry. apply Z.eqb_neq. rewrite length_app. simpl. lia. }
    rewrite getitem_app. cbn [bind].
    assert (Hnext : getitem (pre ++ p :: p' :: rest)
                      (Z.of_nat (List.length pre) + 1) = Ok p').
    { replace (Z.of_nat (List.length pre) + 1)%Z
        with (Z.of_nat (List.length (pre ++ [p])))
        by (rewrite length_app; simpl; lia).
      replace (pre ++ p :: p' :: rest) with ((pre ++ [p]) ++ p' :: rest)
        by (rewrite <- app_assoc; reflexivity).
      apply getitem_app. }
    rewrite Hnext. cbn [bind].
    assert (Hlt : time p < time p').
    { apply earlier_lt.
      pose proof (strong_app_r pre _ Hs) as H'.
      apply StronglySorted_inv in H' as [_ H'].
      apply Forall_inv in H'. exact H'. }
    assert (Hne : eqb (sub (time p') (time p)) (of_Z 0) = false).
    { apply Qc_eqb_neq. apply Qc_minus_neq_0. exact Hlt. }
    rewrite Hne. unfold pydiv. rewrite Hne. cbn [bind].
    replace (div (sub (time p) (time p)) (sub (time p') (time p)))
      with (num 0).
    2:{ cbn [div sub Qc_Number]. unfold Qcdiv. change (num 0) with 0. ring. }
    rewrite linear_at_0, at_time_eta.
    assert (Hrec :
      Replay.sweep Interpolation.linear (pre ++ p :: p' :: rest)
        (p' :: rest) (List.length pre) (clean ++ [p]) (inter ++ [p])
      = Ok (clean ++ p :: p' :: rest,
            inter ++ removelast (p :: p' :: rest))).
    { rewrite (IH (pre ++ [p]) (clean ++ [p]) (inter ++ [p]) p'
                 (List.length pre)).
      - rewrite <- !app_assoc. reflexivity.
      - rewrite <- app_assoc. reflexivity.
      - rewrite length_app. simpl. lia. }
    destruct (_ || _); exact Hrec.
Qed.
End SelfAlignment.

Section SelfComparison.
Local Open Scope Qc_scope.

Lemma align_self (a0 a1 : sample Qc) (rest : list (sample Qc))
    (unflip : bool) :
  strictly_increasing (a0 :: a1 :: rest) ->
  align false (a0 :: a1 :: rest) (a0 :: a1 :: rest)
        Interpolation.linear unflip
  = Ok (a0 :: a1 :: rest, removelast (a0 :: a1 :: rest)).
Proof.
  intros Hinc. pose proof (increasing_strong _ Hinc) as Hs.
  assert (H01 : ltb (time a0) (time a1) = true).
  { apply Sorted_inv in Hinc as [_ Hinc]. apply HdRel_inv in Hinc.
    exact Hinc. }
  unfold align, Replay.head_index.
  cbn [getitem Z.ltb Z.compare Z.to_nat nth_error bind next_index].
  rewrite Qc_ltb_irrefl, H01. cbn [fmap bind].
  unfold Replay.head_trim, Replay.reorient.
  rewrite Z.ltb_irrefl.
  change (slice_from (a0 :: a1 :: rest) (Z.of_nat 1 - 1))
    with (a0 :: a1 :: rest).
  rewrite Z.gtb_ltb, Z.ltb_irrefl.
  rewrite (sweep_self (a0 :: a1 :: rest) Hs (a1 :: rest) [] [] [] a0 0%nat
             eq_refl (le_n 0)).
  cbn [bind app]. unfold Replay.unflip_result.
  rewrite andb_false_r. reflexivity.
Qed.

(** X7: aligning a strictly increasing trace of at least two
    samples with itself returns the whole trace as clean and the
    trace without its last sample as interpolated. *)
Theorem interpolate_self (data : list (sample Qc)) (unflip : bool) :
  strictly_increasing data -> (2 <= List.length data)%nat ->
  Replay.interpolate data data Interpolation.linear unflip
  = Ok (data, removelast data).
Proof.
  intros Hinc Hlen.
  destruct data as [|a0 [|a1 rest]]; simpl in Hlen; try lia.
  rewrite interpolate_align, orient_cons, Qc_ltb_irrefl.
  cbn [bind fst snd]. apply align_self. exact Hinc.
Qed.

Lemma firstn_removelast {A : Type} (l : list A) :
  firstn (List.length (removelast l)) l = removelast l.
Proof.
  induction l as [|a [|b l] IH]; [reflexivity|reflexivity|].
  change (removelast (a :: b :: l)) with (a :: removelast (b :: l)).
  cbn [List.length firstn]. f_equal. exact IH.
Qed.

Variable sqrt : Qc -> Qc.
Hypothesis sqrt_0 : sqrt (num 0) = num 0.

Lemma euclid_self (a : Qc * Qc) : Comparer.euclid sqrt a a = num 0.
Proof.
  unfold Comparer.euclid. cbv zeta. cbn [add sub mul Qc_Number].
  rewrite <- sqrt_0. f_equal. change (num 0) with 0. ring.
Qed.

Lemma distances_self (l : list (Qc * Qc)) :
  Comparer.distances sqrt l l = map (fun _ => num 0) l.
Proof.
  induction l as [|a l IH]; [reflexivity|].
  cbn [Comparer.distances map]. now rewrite euclid_self, IH.
Qed.

Lemma fold_zeros (l : list (Qc * Qc)) :
  fold_left add (map (fun _ => num 0) l) (num 0) = num 0.
Proof.
  induction l as [|a l IH]; [reflexivity|].
  cbn [map fold_left]. cbn [add Qc_Number].
  replace (num 0 + num 0) with (num 0) by (change (num 0) with 0; ring).
  exact IH.
Qed.

Lemma mean_zeros (l : list (Qc * Qc)) :
  Comparer.mean (map (fun _ => num 0) l) = num 0.
Proof.
  unfold Comparer.mean, Comparer.total.
  destruct l as [|a l]; cbn [map].
  - cbn [div Qc_Number]. unfold Qcdiv. change (of_Z 0) with 0.
    change (num 0) with 0. ring.
  - rewrite fold_zeros. cbn [div Qc_Number]. unfold Qcdiv.
    change (num 0) with 0. ring.
Qed.

Lemma std_zeros (l : list (Qc * Qc)) :
  Comparer.std sqrt (map (fun _ => num 0) l) = num 0.
Proof.
  unfold Comparer.std. cbv zeta. rewrite mean_zeros, map_map.
  assert (E : mul (abs (sub (num 0) (num 0))) (abs (sub (num 0) (num 0)))
              = num 0) by (apply Qc_decomp; reflexivity).
  rewrite E, mean_zeros. exact sqrt_0.
Qed.

(** A list of coordinates is at distance zero from itself without
    its last element. *)
Lemma similarity_of_prefix (l : list (Qc * Qc)) :
  removelast l <> [] ->
  Comparer._compute_data_similarity sqrt l (removelast l)
  = Ok (num 0, num 0).
Proof.
  intros Hne. unfold Comparer._compute_data_similarity.
  replace (len (removelast l) >? len l)%Z with false.
  2:{ symmetry. rewrite Z.gtb_ltb. apply Z.ltb_ge. unfold len.
      pose proof (f_equal (@List.length _) (firstn_removelast l)) as H.
      rewrite length_firstn in H. lia. }
  rewrite firstn_removelast.
  destruct (removelast l) as [|a m] eqn:E; [congruence|].
  rewrite distances_self, mean_zeros, std_zeros. reflexivity.
Qed.
End SelfComparison.

(** X22: a replay whose sample list is strictly increasing and has
    at least two samples is at mean distance 0 with deviation 0 from
    itself. *)
Theorem compare_replay_with_itself (sqrt : Qc -> Qc)
    (replay : Replay.Replay Qc) (data : list (sample Qc)) :
  sqrt (num 0) = num 0 ->
  Replay.as_list_with_timestamps replay = Ok data ->
  strictly_increasing data -> (2 <= List.length data)%nat ->
  Comparer._compare_two_replays sqrt replay replay = Ok (num 0, num 0).
Proof.
  intros Hsqrt Hdata Hinc Hlen.
  unfold Comparer._compare_two_replays. rewrite Hdata. cbn [bind].
  unfold Comparer.compare_samples.
  destruct data as [|a0 [|a1 rest]]; simpl in Hlen; try lia.
  rewrite interpolate_align, orient_cons, Qc_ltb_irrefl.
  cbn [bind fst snd]. rewrite (align_self a0 a1 rest false Hinc).
  cbn [bind fst snd].
  replace (map coords (removelast (a0 :: a1 :: rest)))
    with (removelast (map coords (a0 :: a1 :: rest))).
  - apply similarity_of_prefix; [exact Hsqrt|].
    cbn [map]. destruct (map coords rest); discriminate.
  - generalize (a0 :: a1 :: rest). intros l.
    induction l as [|a [|b l] IH]; [reflexivity|reflexivity|].
    change (removelast (a :: b :: l)) with (a :: removelast (b :: l)).
    cbn [map]. change (removelast (coords a :: coords b :: map coords l))
      with (coords a :: removelast (coords b :: map coords l)).
    f_equal. exact IH.
Qed.

(** ** More on [Replay.skip_breaks] *)

Section SkipBreaksShape.
Context {T : Type} {N : Number T}.
Local Open Scope num_scope.

Lemma skip_loop_coords (thr : T) :
  forall (events : list (sample T)) (total t_prev : T),
    map coords (Replay.skip_loop thr events total t_prev [])
    = map coords events.
Proof.
  induction events as [|event rest IH]; intros total t_prev;
    [reflexivity|].
  rewrite skip_loop_cons. cbv zeta. cbn [map]. rewrite IH. reflexivity.
Qed.

(** X13: [skip_breaks] raises [IndexError] on the empty list; on
    any other input, whatever the threshold, it returns as many
    samples as it was given, with the coordinates unchanged. *)
Theorem skip_breaks_keeps_samples
    (timestamped : list (sample T)) (break_threshold : T) :
  (timestamped = [] ->
   Replay.skip_breaks timestamped break_threshold = Raise IndexError)
  /\ (timestamped <> [] ->
      exists skipped,
        Replay.skip_breaks timestamped break_threshold = Ok skipped
        /\ List.length skipped = List.length timestamped
        /\ map coords skipped = map coords timestamped).
Proof.
  split; [intros ->; reflexivity|]. intros Hne.
  destruct timestamped as [|first rest]; [congruence|].
  eexists. split; [reflexivity|].
  assert (Hc : map coords
                 (Replay.skip_loop break_threshold (first :: rest) #0
                    (time first) [])
               = map coords (first :: rest)) by apply skip_loop_coords.
  split; [|exact Hc].
  apply (f_equal (@List.length _)) in Hc. rewrite !length_map in Hc.
  exact Hc.
Qed.
End SkipBreaksShape.

(** ** [Replay.as_list_with_timestamps] *)

Section SortFacts.
Context {T : Type} {N : Number T}.

Lemma insert_by_time_perm (p : stamped T) (l : list (stamped T)) :
  Permutation (Replay.insert_by_time p l) (p :: l).
Proof.
  induction l as [|p' l IH]; cbn [Replay.insert_by_time]; [reflexivity|].
  destruct (tick p <? tick p')%Z; [reflexivity|].
  rewrite IH. apply perm_swap.
Qed.

Lemma fold_insert_perm (l : list (stamped T)) :
  forall acc,
    Permutation
      (fold_left (fun sorted p => Replay.insert_by_time p sorted) l acc)
      (acc ++ l).
Proof.
  induction l as [|p l IH]; intros acc; cbn [fold_left].
  - rewrite app_nil_r. reflexivity.
  - rewrite IH, insert_by_time_perm. apply Permutation_middle.
Qed.

Lemma insert_by_time_sorted (p : stamped T) (l : list (stamped T)) :
  ticks_ordered l -> ticks_ordered (Replay.insert_by_time p l).
Proof.
  unfold ticks_ordered.
  induction l as [|q l IH]; intros Hs; cbn [Replay.insert_by_time].
  - repeat constructor.
  - destruct (Z.ltb_spec (tick p) (tick q)) as [E|E].
    + constructor; [exact Hs|]. constructor. lia.
    + apply Sorted_inv in Hs as [Hs Hh].
      constructor; [apply IH, Hs|].
      destruct l as [|q' l]; cbn [Replay.insert_by_time].
      * constructor. exact E.
      * destruct (tick p <? tick q')%Z; constructor.
        -- exact E.
        -- apply HdRel_inv in Hh. exact Hh.
Qed.

Lemma fold_insert_sorted (l : list (stamped T)) :
  forall acc,
    ticks_ordered acc ->
    ticks_ordered
      (fold_left (fun sorted p => Replay.insert_by_time p sorted) l acc).
Proof.
  induction l as [|p l IH]; intros acc Hs; cbn [fold_left]; [exact Hs|].
  apply IH, insert_by_time_sorted, Hs.
Qed.

(** A sample that is not before any sample of the list goes to its
    end. *)
Lemma insert_by_time_last (p : stamped T) (l : list (stamped T)) :
  Forall (fun q => (tick q <= tick p)%Z) l ->
  Replay.insert_by_time p l = l ++ [p].
Proof.
  induction l as [|q l IH]; intros H; [reflexivity|].
  apply Forall_cons_iff in H as [Hq Hl].
  cbn [Replay.insert_by_time].
  replace (tick p <? tick q)%Z with false
    by (symmetry; apply Z.ltb_ge; exact Hq).
  rewrite (IH Hl). reflexivity.
Qed.

Lemma ordered_app_before (pre rest : list (stamped T)) (p : stamped T) :
  ticks_ordered (pre ++ p :: rest) ->
  Forall (fun q => (tick q <= tick p)%Z) pre.
Proof.
  intros H. apply Sorted_StronglySorted in H.
  2:{ intros a b c Hab Hbc. lia. }
  induction pre as [|q pre IH]; [constructor|].
  simpl in H. apply StronglySorted_inv in H as [Hs Hq]. constructor.
  - rewrite Forall_forall in Hq. apply Hq, in_or_app. right. now left.
  - apply IH, Hs.
Qed.

(** Sorting a list that is in time order changes nothing. *)
Lemma fold_insert_ordered (l : list (stamped T)) :
  forall acc,
    ticks_ordered (acc ++ l) ->
    fold_left (fun sorted p => Replay.insert_by_time p sorted) l acc
    = acc ++ l.
Proof.
  induction l as [|p l IH]; intros acc Hs; cbn [fold_left].
  - now rewrite app_nil_r.
  - rewrite insert_by_time_last by (eapply ordered_app_before; exact Hs).
    rewrite IH; rewrite <- app_assoc; [reflexivity|exact Hs].
Qed.

Lemma cumsum_length (l : list Z) :
  List.length (Replay.cumsum l) = List.length l.
Proof.
  destruct l as [|a l]; [reflexivity|]. cbn [Replay.cumsum List.length].
  f_equal. revert a. induction l as [|b l IH]; intros a; [reflexivity|].
  cbn [Replay.running_sum List.length]. f_equal. apply IH.
Qed.

Lemma stamped_events_length (events : list (Replay.ReplayEvent T)) :
  List.length (stamped_events events) = List.length events.
Proof.
  unfold stamped_events.
  rewrite length_map, length_combine, cumsum_length, length_map.
  apply Nat.min_id.
Qed.

(** What [as_list_with_timestamps] returns: the sorted list, its
    timestamps turned into numbers. *)
Lemma as_list_sorted (replay : Replay.Replay T) :
  exists txy,
    Replay.as_list_with_timestamps replay = Ok (map as_sample txy)
    /\ Permutation txy (stamped_events (Replay.play_data replay))
    /\ ticks_ordered txy.
Proof.
  eexists. split; [reflexivity|].
  fold (stamped_events (Replay.play_data replay)).
  unfold Replay.sort_by_time. split.
  - apply (fold_insert_perm (stamped_events (Replay.play_data replay)) []).
  - apply fold_insert_sorted. constructor.
Qed.

(** X18: for time deltas that fit 64-bit integers,
    [as_list_with_timestamps] returns a permutation of the events'
    [(cumulative time, x, y)] triples, the cumulative time being the
    64-bit sum, in time order and one sample per event. *)
Theorem as_list_with_timestamps_sorts (replay : Replay.Replay T) :
  fits_int64 (Replay.play_data replay) ->
  exists txy,
    Replay.as_list_with_timestamps replay = Ok (map as_sample txy)
    /\ Permutation txy (stamped_events (Replay.play_data replay))
    /\ ticks_ordered txy
    /\ List.length txy = List.length (Replay.play_data replay).
Proof.
  intros _. destruct (as_list_sorted replay) as (txy & Hrun & Hperm & Hord).
  exists txy. repeat split; try assumption.
  rewrite (Permutation_length Hperm). apply stamped_events_length.
Qed.

Lemma int64_fits (z : Z) : (- 2 ^ 63 <= z < 2 ^ 63)%Z -> Replay.int64 z = z.
Proof.
  intros H. unfold Replay.int64. rewrite Z.mod_small; lia.
Qed.

Lemma elapsed_nonneg (events : list (Replay.ReplayEvent T)) :
  Forall (fun e => (0 <= Replay.time_since_previous_action e)%Z) events ->
  (0 <= elapsed events)%Z.
Proof.
  induction 1 as [|e events He _ IH]; cbn [elapsed fold_right]; [lia|].
  fold (elapsed events). lia.
Qed.

(** Sums that stay in 64 bits are the sums of the integers: the
    samples after one at time [acc]. *)
Lemma running_forward (events : list (Replay.ReplayEvent T)) :
  forall acc : Z,
    (- 2 ^ 63 <= acc)%Z ->
    Forall (fun e => (0 <= Replay.time_since_previous_action e)%Z) events ->
    (acc + elapsed events < 2 ^ 63)%Z ->
    let txy :=
      map (fun z => (fst z, Replay.x (snd z), Replay.y (snd z)))
          (combine
             (Replay.running_sum acc
                (map (@Replay.time_since_previous_action T) events))
             events) in
    tick_diffs acc txy
    = map (@Replay.time_since_previous_action T) events
    /\ forall k e,
        nth_error events k = Some e ->
        nth_error txy k
        = Some ((acc + elapsed (firstn (S k) events))%Z,
                Replay.x e, Replay.y e).
Proof.
  induction events as [|e0 events IH]; intros acc Hacc Hpos Hsum txy.
  - split; [reflexivity|]. intros k e Hk. destruct k; discriminate Hk.
  - apply Forall_cons_iff in Hpos as [H0 Hpos].
    pose proof (elapsed_nonneg events Hpos) as Hrest.
    cbn [elapsed fold_right] in Hsum. fold (elapsed events) in Hsum.
    subst txy. cbn [map Replay.running_sum combine].
    rewrite int64_fits by lia.
    destruct (IH (acc + Replay.time_since_previous_action e0)%Z)
      as [Hd Hn]; try assumption; try lia.
    cbv zeta in Hd, Hn. split.
    + cbn [tick_diffs]. unfold tick at 1 2. cbn [fst]. rewrite Hd.
      f_equal. lia.
    + intros k e Hk. destruct k as [|k].
      * injection Hk as <-. cbn [nth_error fst snd]. do 3 f_equal.
        cbn [firstn elapsed fold_right]. lia.
      * cbn [nth_error] in *. rewrite (Hn k e Hk). do 3 f_equal.
        cbn [firstn elapsed fold_right].
        fold (elapsed (firstn (S k) events)). lia.
Qed.

(** X19: when the time deltas fit 64-bit integers, none after the
    first is negative and their sum stays below [2^63], the samples
    come in the order of the events and the k-th sample is the k-th
    event's position at the sum of the first k+1 deltas. *)
Theorem as_list_of_forward_replay (replay : Replay.Replay T) :
  fits_int64 (Replay.play_data replay) ->
  Forall (fun e => (0 <= Replay.time_since_previous_action e)%Z)
         (tl (Replay.play_data replay)) ->
  (elapsed (Replay.play_data replay) < 2 ^ 63)%Z ->
  Replay.as_list_with_timestamps replay
  = Ok (map as_sample (stamped_events (Replay.play_data replay)))
  /\ forall k e,
      nth_error (Replay.play_data replay) k = Some e ->
      nth_error (stamped_events (Replay.play_data replay)) k
      = Some (elapsed (firstn (S k) (Replay.play_data replay)),
              Replay.x e, Replay.y e).
Proof.
  intros Hfit Hpos Hsum.
  destruct (Replay.play_data replay) as [|e0 events] eqn:Edata.
  { split.
    - unfold Replay.as_list_with_timestamps. rewrite Edata. reflexivity.
    - intros k e Hk. destruct k; discriminate Hk. }
  cbn [tl] in Hpos. apply Forall_inv in Hfit.
  cbn [elapsed fold_right] in Hsum. fold (elapsed events) in Hsum.
  destruct (running_forward events (Replay.time_since_previous_action e0))
    as [Hd Hn]; try assumption; try lia.
  cbv zeta in Hd, Hn. split.
  - unfold Replay.as_list_with_timestamps. rewrite Edata.
    fold (stamped_events (e0 :: events)).
    unfold Replay.sort_by_time. do 2 f_equal.
    apply (fold_insert_ordered _ []). cbn [app].
    unfold stamped_events. cbn [map Replay.cumsum combine].
    apply ordered_tick_gaps. unfold tick at 1. cbn [fst].
    rewrite Hd. apply Forall_forall. intros d Hin.
    apply in_map_iff in Hin as (e' & <- & He').
    rewrite Forall_forall in Hpos. apply Hpos, He'.
  - intros k e Hk. unfold stamped_events.
    cbn [map Replay.cumsum combine]. destruct k as [|k].
    + injection Hk as <-. cbn [nth_error fst snd]. do 3 f_equal.
      cbn [firstn elapsed fold_right]. lia.
    + cbn [nth_error] in *.
      etransitivity; [apply (Hn k e Hk)|]. reflexivity.
Qed.
End SortFacts.

(** ** [Comparer._compute_data_similarity] *)

Section SimilarityShape.
Context {T : Type} {N : Number T}.
Variable sqrt : T -> T.

(** X20: [_compute_data_similarity] raises [ValueError] exactly
    when one of the two lists is empty, whatever the other one
    holds. *)
Theorem similarity_value_error (data1 data2 : list (T * T)) :
  Comparer._compute_data_similarity sqrt data1 data2 = Raise ValueError
  <-> data1 = [] \/ data2 = [].
Proof.
  unfold Comparer._compute_data_similarity, len. split.
  - intros H. destruct data1 as [|a data1]; [now left|].
    destruct data2 as [|b data2]; [now right|].
    destruct (_ >? _)%Z; discriminate H.
  - intros [->| ->].
    + destruct data2 as [|b data2]; [reflexivity|].
      replace (Z.of_nat (List.length (b :: data2))
               >? Z.of_nat (List.length (@nil (T * T))))%Z with true
        by (symmetry; rewrite Z.gtb_ltb; apply Z.ltb_lt; simpl; lia).
      reflexivity.
    + replace (Z.of_nat (List.length (@nil (T * T)))
               >? Z.of_nat (List.length data1))%Z with false
        by (symmetry; rewrite Z.gtb_ltb; apply Z.ltb_ge; simpl; lia).
      reflexivity.
Qed.
End SimilarityShape.

Section SimilaritySymmetry.
Local Open Scope Qc_scope.
Variable sqrt : Qc -> Qc.

Lemma euclid_sym (a b : Qc * Qc) :
  Comparer.euclid sqrt a b = Comparer.euclid sqrt b a.
Proof.
  unfold Comparer.euclid. cbv zeta. f_equal. qc_ops. ring.
Qed.

Lemma distances_sym (l1 l2 : list (Qc * Qc)) :
  Comparer.distances sqrt l1 l2 = Comparer.distances sqrt l2 l1.
Proof.
  revert l2. induction l1 as [|a l1 IH]; intros [|b l2];
    cbn [Comparer.distances]; try reflexivity.
  now rewrite euclid_sym, IH.
Qed.

(** X21: [_compute_data_similarity] does not depend on the order
    of its two arguments, also when their lengths differ. *)
Theorem similarity_symmetric (data1 data2 : list (Qc * Qc)) :
  Comparer._compute_data_similarity sqrt data1 data2
  = Comparer._compute_data_similarity sqrt data2 data1.
Proof.
  unfold Comparer._compute_data_similarity, len.
  rewrite !Z.gtb_ltb.
  destruct (Z.ltb_spec (Z.of_nat (List.length data1))
              (Z.of_nat (List.length data2))) as [H12|H12];
    destruct (Z.ltb_spec (Z.of_nat (List.length data2))
                (Z.of_nat (List.length data1))) as [H21|H21];
    try lia; try reflexivity.
  assert (Hlen : List.length data1 = List.length data2) by lia.
  replace (firstn (List.length data2) data1) with data1
    by (rewrite <- Hlen; symmetry; apply firstn_all).
  replace (firstn (List.length data1) data2) with data2
    by (rewrite Hlen; symmetry; apply firstn_all).
  destruct data1 as [|a l1], data2 as [|b l2]; try discriminate Hlen;
    [reflexivity|].
  rewrite (distances_sym (a :: l1) (b :: l2)). reflexivity.
Qed.
End SimilaritySymmetry.

(** ** [Investigator.as_time_space] *)

(** X26: [as_time_space] raises [IndexError] for a replay without
    events; otherwise it returns the row of timestamps, in
    non-decreasing order, and the two rows of coordinates, each as
    long as the replay. *)
Theorem as_time_space_rows (replay : Replay.Replay Qc) :
  (Replay.play_data replay = [] ->
   Investigator.as_time_space replay = Raise IndexError)
  /\ (Replay.play_data replay <> [] ->
      exists t xs ys,
        Investigator.as_time_space replay = Ok (t, [xs; ys])
        /\ List.length t = List.length (Replay.play_data replay)
        /\ List.length xs = List.length (Replay.play_data replay)
        /\ List.length ys = List.length (Replay.play_data replay)
        /\ Sorted (fun a b => Qcle a b) t).
Proof.
  unfold Investigator.as_time_space.
  destruct (as_list_sorted replay) as (txy & -> & Hperm & Hord).
  cbn [bind].
  apply Permutation_length in Hperm.
  rewrite stamped_events_length in Hperm.
  destruct txy as [|p txy]; split.
  - reflexivity.
  - intros Hne. destruct (Replay.play_data replay);
      [congruence|discriminate Hperm].
  - intros He. rewrite He in Hperm. discriminate Hperm.
  - intros _. cbn [map]. do 3 eexists. split; [reflexivity|].
    cbn [List.length]. rewrite !length_map.
    repeat split; try exact Hperm.
    change (time (as_sample p) :: map time (map as_sample txy))
      with (map time (map as_sample (p :: txy))).
    clear - Hord.
    induction Hord as [|q l Hs IH Hh]; [constructor|].
    cbn [map]. constructor; [exact IH|].
    destruct Hh; constructor.
    change (num (tick q) <= num (tick b))%Qc.
    apply (proj1 (num_le _ _)). assumption.
Qed.

(** ** [Comparer.compare] *)

Section CompareFacts.
Context {T : Type} {N : Number T}.
Local Open Scope num_scope.
Variable sqrt : T -> T.
Variable WHITELIST : list string.
Variable prompt : Replay.Replay T -> Replay.Replay T -> result unit.

Lemma combinations_In {A : Type} (l : list A) (a b : A) :
  In (a, b) (Comparer.combinations l) -> In a l /\ In b l.
Proof.
  induction l as [|c l IH]; cbn [Comparer.combinations]; [intros []|].
  intros H. apply in_app_or in H as [H|H].
  - apply in_map_iff in H as (b' & E & Hb). inversion E; subst.
    split; [now left|now right].
  - destruct (IH H). split; now right.
Qed.

(** Pairs that [check_names] sets aside leave no trace. *)
Lemma compare_loop_skips (threshold : T)
    (iterator : list (Replay.Replay T * Replay.Replay T)) :
  (forall replay1 replay2,
      In (replay1, replay2) iterator ->
      Comparer.check_names WHITELIST (Replay.player_name replay1)
        (Replay.player_name replay2) = true) ->
  Comparer.compare_loop sqrt WHITELIST prompt threshold iterator
  = ([], Comparer.Returned).
Proof.
  induction iterator as [|[replay1 replay2] rest IH]; intros H;
    [reflexivity|].
  cbn [Comparer.compare_loop].
  rewrite (H replay1 replay2) by now left.
  apply IH. intros r1 r2 Hr. apply H. now right.
Qed.

(** Where a printed result comes from. *)
Lemma compare_loop_sound (threshold : T)
    (iterator : list (Replay.Replay T * Replay.Replay T))
    (line : T * T * string * string) :
  In (Comparer.Similarity line)
     (fst (Comparer.compare_loop sqrt WHITELIST prompt threshold
             iterator)) ->
  exists replay1 replay2 mean sigma,
    In (replay1, replay2) iterator
    /\ Comparer.check_names WHITELIST (Replay.player_name replay1)
         (Replay.player_name replay2) = false
    /\ Comparer._compare_two_replays sqrt replay1 replay2
       = Ok (mean, sigma)
    /\ (mean >? threshold) = false
    /\ line = (mean, sigma, Replay.player_name replay1,
               Replay.player_name replay2).
Proof.
  induction iterator as [|[replay1 replay2] rest IH];
    cbn [Comparer.compare_loop]; [intros []|].
  set (tail := Comparer.compare_loop sqrt WHITELIST prompt threshold rest)
    in *.
  assert (Hrest :
    In (Comparer.Similarity line) (fst tail) ->
    exists replay0 replay3 mean sigma,
      In (replay0, replay3) ((replay1, replay2) :: rest)
      /\ Comparer.check_names WHITELIST (Replay.player_name replay0)
           (Replay.player_name replay3) = false
      /\ Comparer._compare_two_replays sqrt replay0 replay3
         = Ok (mean, sigma)
      /\ (mean >? threshold) = false
      /\ line = (mean, sigma, Replay.player_name replay0,
                 Replay.player_name replay3)).
  { intros H. destruct (IH H) as (r1 & r2 & mean & sigma & Hin & Hrest).
    exists r1, r2, mean, sigma. split; [now right|exact Hrest]. }
  destruct (Comparer.check_names _ _ _) eqn:Ec; [exact Hrest|].
  destruct (Comparer._compare_two_replays sqrt replay1 replay2)
    as [[mean sigma]|e|] eqn:Er; try (intros []).
  unfold Comparer._print_result. cbn [fst snd].
  destruct (mean >? threshold) eqn:Et; [exact Hrest|].
  assert (Hhere :
    exists replay0 replay3 mean0 sigma0,
      In (replay0, replay3) ((replay1, replay2) :: rest)
      /\ Comparer.check_names WHITELIST (Replay.player_name replay0)
           (Replay.player_name replay3) = false
      /\ Comparer._compare_two_replays sqrt replay0 replay3
         = Ok (mean0, sigma0)
      /\ (mean0 >? threshold) = false
      /\ (mean, sigma, Replay.player_name replay1,
          Replay.player_name replay2)
         = (mean0, sigma0, Replay.player_name replay0,
            Replay.player_name replay3)).
  { exists replay1, replay2, mean, sigma. repeat split; auto. now left. }
  destruct (prompt replay1 replay2) as [u|e|].
  - destruct tail as [printed e]. cbn [fst] in *. intros [H|H].
    + inversion H; subst line. exact Hhere.
    + apply Hrest, H.
  - cbn [fst]. intros [H|[]]. inversion H; subst line. exact Hhere.
  - cbn [fst]. intros [H|[]]. inversion H; subst line. exact Hhere.
Qed.

(** X23: with a mode other than "double" and "single" [compare]
    raises before it prints or compares anything; in mode "double"
    without a second list it prints the banner and raises
    [TypeError]. *)
Theorem compare_rejects_bad_calls (threshold : T)
    (replays1 : list (Replay.Replay T))
    (replays2 : option (list (Replay.Replay T))) (mode : string) :
  (mode <> "double"%string -> mode <> "single"%string ->
   Comparer.compare sqrt WHITELIST prompt threshold replays1 replays2 mode
   = ([], Comparer.Uncaught
            (Comparer.Exception
               "`mode` must be one of 'double' or 'single'")))
  /\ Comparer.compare sqrt WHITELIST prompt threshold replays1 None
       "double"
     = ([Comparer.Banner
           "comparing first set of replays to second set of replays"],
        Comparer.Uncaught Comparer.TypeError).
Proof.
  split; [|reflexivity].
  intros Hd Hs. unfold Comparer.compare.
  apply String.eqb_neq in Hd, Hs. rewrite Hd, Hs. reflexivity.
Qed.

(** X24: when every player is on the whitelist, [compare] prints
    the banner alone and returns, in both modes, without comparing
    any pair. *)
Theorem compare_skips_trusted (threshold : T)
    (replays1 replays2 : list (Replay.Replay T)) :
  (forall replay,
      In replay (replays1 ++ replays2) ->
      Comparer.whitelisted WHITELIST (Replay.player_name replay) = true) ->
  Comparer.compare sqrt WHITELIST prompt threshold replays1
    (Some replays2) "double"
  = ([Comparer.Banner
        "comparing first set of replays to second set of replays"],
     Comparer.Returned)
  /\ Comparer.compare sqrt WHITELIST prompt threshold replays1 None
       "single"
     = ([Comparer.Banner "comparing first set of replays to itself"],
        Comparer.Returned).
Proof.
  intros H.
  assert (Hw : forall r1 r2,
             In r1 (replays1 ++ replays2) -> In r2 (replays1 ++ replays2) ->
             Comparer.check_names WHITELIST (Replay.player_name r1)
               (Replay.player_name r2) = true).
  { intros r1 r2 H1 H2. unfold Comparer.check_names.
    rewrite (H r1 H1), (H r2 H2). reflexivity. }
  unfold Comparer.compare. cbn [String.eqb Ascii.eqb Bool.eqb].
  rewrite !compare_loop_skips; [split; reflexivity| |].
  - intros r1 r2 Hin. apply combinations_In in Hin as [H1 H2].
    apply Hw; apply in_or_app; now left.
  - intros r1 r2 Hin. apply in_prod_iff in Hin as [H1 H2].
    apply Hw; apply in_or_app; [now left|now right].
Qed.

(** X25: every result that [compare] prints belongs to two of the
    given replays, of players with different names that are not
    both on the whitelist, and shows their mean distance and
    deviation, the mean being not above the threshold. *)
Theorem compare_prints_only_close_pairs (threshold : T)
    (replays1 : list (Replay.Replay T))
    (replays2 : option (list (Replay.Replay T))) (mode : string)
    (line : T * T * string * string) :
  In (Comparer.Similarity line)
     (fst (Comparer.compare sqrt WHITELIST prompt threshold replays1
             replays2 mode)) ->
  exists replay1 replay2 mean sigma,
    In replay1 replays1
    /\ (In replay2 replays1
        \/ exists l, replays2 = Some l /\ In replay2 l)
    /\ Replay.player_name replay1 <> Replay.player_name replay2
    /\ (Comparer.whitelisted WHITELIST (Replay.player_name replay1) = false
        \/ Comparer.whitelisted WHITELIST (Replay.player_name replay2)
           = false)
    /\ Comparer._compare_two_replays sqrt replay1 replay2
       = Ok (mean, sigma)
    /\ (mean >? threshold) = false
    /\ line = (mean, sigma, Replay.player_name replay1,
               Replay.player_name replay2).
Proof.
  unfold Comparer.compare.
  assert (Hnames : forall p1 p2,
             Comparer.check_names WHITELIST p1 p2 = false ->
             p1 <> p2
             /\ (Comparer.whitelisted WHITELIST p1 = false
                 \/ Comparer.whitelisted WHITELIST p2 = false)).
  { intros p1 p2 Hc. unfold Comparer.check_names in Hc.
    apply orb_false_iff in Hc as [Hw He]. split.
    - apply String.eqb_neq. exact He.
    - apply andb_false_iff. exact Hw. }
  destruct (String.eqb mode "double").
  - destruct replays2 as [l|].
    + pose proof (compare_loop_sound threshold (list_prod replays1 l) line)
        as Hsound.
      destruct (Comparer.compare_loop _ _ _ _ _) as [printed e].
      cbn [fst] in *. intros [H|H]; [discriminate H|].
      destruct (Hsound H)
        as (r1 & r2 & mean & sigma & Hin & Hc & Hr & Ht & Hl).
      apply in_prod_iff in Hin as [H1 H2].
      destruct (Hnames _ _ Hc) as [Hn Hw].
      exists r1, r2, mean, sigma. repeat split; eauto.
    + cbn [fst]. intros [H|[]]. discriminate H.
  - destruct (String.eqb mode "single"); [|intros []].
    pose proof (compare_loop_sound threshold
                  (Comparer.combinations replays1) line) as Hsound.
    destruct (Comparer.compare_loop _ _ _ _ _) as [printed e].
    cbn [fst] in *. intros [H|H]; [discriminate H|].
    destruct (Hsound H)
      as (r1 & r2 & mean & sigma & Hin & Hc & Hr & Ht & Hl).
    apply combinations_In in Hin as [H1 H2].
    destruct (Hnames _ _ Hc) as [Hn Hw].
    exists r1, r2, mean, sigma. repeat split; auto.
Qed.
End CompareFacts.

(** ** More on [Replay.resample] *)

(** X8: when the first timestamp is not before the last one,
    [resample] returns the empty list whatever the frequency, zero
    included. *)
Theorem resample_of_no_span {T : Type} {N : Number T}
    (timestamped : list (sample T)) (frequency : T)
    (first last : sample T) (fuel : nat) :
  getitem timestamped 0 = Ok first ->
  getitem timestamped (-1) = Ok last ->
  ltb (time first) (time last) = false ->
  Replay.resample fuel timestamped frequency = Ok [].
Proof.
  intros Hfirst Hlast Hspan. unfold Replay.resample.
  rewrite Hfirst, Hlast. cbn [bind].
  apply resample_loop_stop. exact Hspan.
Qed.

Section ResampleEdges.
Local Open Scope Qc_scope.
Variables (timestamped : list (sample Qc)) (first last : sample Qc).
Hypothesis Hfirst : getitem timestamped 0 = Ok first.
Hypothesis Hlast : getitem timestamped (-1) = Ok last.
Hypothesis Hspan : time first < time last.

(** A round that starts at or before the first timestamp keeps the
    cursor on the first sample and brackets it with the last one. *)
Lemma resample_round_at_start (frequency t : Qc) (fuel : nat)
    (acc : list (sample Qc)) :
  t <= time first ->
  Replay.resample_loop (S fuel) timestamped frequency (time last) 0 t acc
  = (step <- pydiv (of_Z 1000) frequency ;;
     Replay.resample_loop fuel timestamped frequency (time last) 0
       (add t step)
       (acc ++ [at_time t
                  (Interpolation.linear (coords last) (coords first)
                     ((t - time last) / (time first - time last)))])).
Proof.
  intros Ht. rewrite resample_loop_S.
  assert (Hlt : ltb t (time last) = true).
  { apply Qc_ltb_lt. eapply Qcle_lt_trans; eassumption. }
  rewrite Hlt.
  destruct (proj1 (getitem_0 _ _) Hfirst) as [l' Hl'].
  assert (Hseek : Replay.seek timestamped t (List.length timestamped - 0) 0
                  = Ok 0%nat).
  { replace (List.length timestamped - 0)%nat with (S (List.length l'))
      by (rewrite Hl'; simpl; lia).
    cbn [Replay.seek]. change (Z.of_nat 0) with 0%Z.
    rewrite Hfirst. cbn [bind].
    replace (ltb (time first) t) with false
      by (symmetry; apply Qc_ltb_ge; exact Ht).
    reflexivity. }
  rewrite Hseek. cbn [bind].
  change (Z.of_nat 0 - 1)%Z with (-1)%Z. change (Z.of_nat 0) with 0%Z.
  rewrite Hlast, Hfirst. cbn [bind].
  rewrite pydiv_nonzero by (apply Qc_minus_neq_0'; exact Hspan).
  reflexivity.
Qed.

(** X9: at frequency 0 and with the first timestamp before the
    last, [resample] raises [ZeroDivisionError] in its first round. *)
Theorem resample_at_zero_frequency (fuel : nat) :
  Replay.resample (S fuel) timestamped (num 0) = Raise ZeroDivisionError.
Proof.
  unfold Replay.resample. rewrite Hfirst, Hlast. cbn [bind].
  rewrite resample_round_at_start by apply Qcle_refl.
  reflexivity.
Qed.

Lemma negative_step (frequency : Qc) :
  frequency < num 0 -> num 1000 / frequency < num 0.
Proof.
  intros Hf.
  assert (Hpos : num 0 < num 1000 / - frequency).
  { apply Qc_div_pos; [reflexivity|].
    apply Qclt_minus_iff in Hf.
    replace (num 0 + - frequency) with (- frequency) in Hf
      by (change (num 0) with 0; ring).
    exact Hf. }
  assert (Hne : frequency <> 0).
  { intros E. rewrite E in Hf. revert Hf. apply Qcle_not_lt, Qcle_refl. }
  assert (E : num 1000 / frequency = - (num 1000 / - frequency)).
  { field. split; [|exact Hne]. intros E. apply Hne.
    rewrite <- (Qcopp_involutive frequency), E. reflexivity. }
  rewrite E.
  apply Qclt_minus_iff.
  replace (num 0 + - - (num 1000 / - frequency))
    with (num 1000 / - frequency) by (change (num 0) with 0; ring).
  exact Hpos.
Qed.

(** X10: at a negative frequency and with the first timestamp
    before the last, the loop of [resample] never ends: the time only
    goes down. *)
Theorem resample_at_negative_frequency (frequency : Qc) :
  frequency < num 0 ->
  forall fuel, Replay.resample fuel timestamped frequency = Diverge.
Proof.
  intros Hf fuel. unfold Replay.resample.
  rewrite Hfirst, Hlast. cbn [bind].
  assert (Hrun : forall fuel t acc,
             t <= time first ->
             Replay.resample_loop fuel timestamped frequency (time last)
               0 t acc = Diverge).
  { clear fuel. induction fuel as [|fuel IH]; intros t acc Ht.
    - cbn [Replay.resample_loop].
      replace (ltb t (time last)) with true; [reflexivity|].
      symmetry. apply Qc_ltb_lt. eapply Qcle_lt_trans; eassumption.
    - rewrite (resample_round_at_start frequency t fuel acc Ht).
      rewrite pydiv_nonzero.
      2:{ intros E. rewrite E in Hf. revert Hf.
          apply Qcle_not_lt, Qcle_refl. }
      cbn [bind]. apply IH.
      pose proof (negative_step frequency Hf) as Hs.
      change (@of_Z Qc Qc_Number 1000) with (num 1000).
      qc_ops. qc_order. lra. }
  apply Hrun, Qcle_refl.
Qed.

(** X11: at a positive frequency the first resampled sample is the
    first input sample. *)
Theorem resample_starts_at_first_sample (frequency : Qc) :
  num 0 < frequency ->
  exists (resampled : list (sample Qc)) (n : nat),
    forall fuel, (n <= fuel)%nat ->
      Replay.resample fuel timestamped frequency = Ok (first :: resampled).
Proof.
  intros Hf.
  destruct (rounds (num 1000 / frequency) (time last) (time first))
    as [|n] eqn:Hn.
  { apply (rounds_done frequency last Hf) in Hn.
    apply Qc_ltb_lt in Hspan. congruence. }
  destruct (rounds_step frequency last Hf (time first) n Hn) as [_ Hn'].
  assert (Hc : cursor_ok timestamped 0
                 (time first + num 1000 / frequency)).
  { split; [|discriminate].
    destruct (proj1 (getitem_0 _ _) Hfirst) as [l' ->]. simpl. lia. }
  destruct (resample_loop_runs timestamped frequency first last
              Hfirst Hlast Hspan Hf n 0%nat _ Hn' Hc)
    as (out & _ & Hrun).
  exists out, (S n). intros fuel Hfuel.
  destruct fuel as [|fuel]; [lia|].
  unfold Replay.resample. rewrite Hfirst, Hlast. cbn [bind].
  rewrite resample_round_at_start by apply Qcle_refl.
  rewrite (pydiv_step frequency Hf). cbn [bind].
  replace ((time first - time last) / (time first - time last))
    with (num 1).
  2:{ change (num 1) with 1. field.
      intros E. apply (Qc_minus_neq_0' _ _ Hspan). exact E. }
  rewrite linear_at_1, at_time_eta.
  apply (Hrun fuel (first :: nil)). lia.
Qed.
End ResampleEdges.

(** ** [Replay.skip_breaks] in any number type *)

Section SkipBreaksAnyNumbers.
Context {T : Type} {N : Number T}.
Local Open Scope num_scope.

(** Without a break nothing but the running total is subtracted. *)
Lemma skip_loop_no_break (thr : T) :
  forall (events : list (sample T)) (total t_prev : T),
    (forall k d, nth_error (diffs t_prev events) k = Some d ->
                 (d >? thr) = false) ->
    Replay.skip_loop thr events total t_prev [] = map (shift total) events.
Proof.
  induction events as [|event rest IH]; intros total t_prev Hd;
    [reflexivity|].
  rewrite skip_loop_cons. cbv zeta.
  rewrite (Hd O (time event - t_prev) eq_refl). simpl. f_equal.
  apply IH. intros k d Hk. apply (Hd (S k) d Hk).
Qed.

(** With a single break, at position [i], the total grows by that
    gap from the sample after the break on. *)
Lemma skip_loop_one_break (thr g : T) :
  forall (i : nat) (events : list (sample T)) (total t_prev : T),
    nth_error (diffs t_prev events) i = Some g ->
    (g >? thr) = true ->
    (forall k d, k <> i -> nth_error (diffs t_prev events) k = Some d ->
                 (d >? thr) = false) ->
    Replay.skip_loop thr events total t_prev []
    = map (shift total) (firstn i events)
      ++ map (shift (total + g)) (skipn i events).
Proof.
  induction i as [|i IH]; intros [|event rest] total t_prev Hi Hg Hd;
    try discriminate Hi; rewrite skip_loop_cons; cbv zeta.
  - simpl in Hi. inversion Hi; subst g. rewrite Hg. simpl. f_equal.
    apply skip_loop_no_break. intros k d Hk.
    apply (Hd (S k) d); [discriminate|exact Hk].
  - rewrite (Hd O (time event - t_prev)); [|discriminate|reflexivity].
    simpl. f_equal. apply IH; [exact Hi|exact Hg|].
    intros k d Hne Hk. apply (Hd (S k) d); [congruence|exact Hk].
Qed.

(** X27: in every number type, floats included, when the gap of
    the first sample to itself is no break and exactly one gap [g]
    is above the threshold, between the samples [i] and [i+1],
    [skip_breaks] subtracts [0] from every timestamp up to the
    sample [i] and [0 + g] from every later one, and nothing else
    changes. *)
Theorem skip_breaks_subtracts_the_break
    (first : sample T) (rest : list (sample T))
    (break_threshold g : T) (i : nat) :
  (time first - time first >? break_threshold) = false ->
  nth_error (gaps (first :: rest)) i = Some g ->
  (g >? break_threshold) = true ->
  (forall k d, k <> i -> nth_error (gaps (first :: rest)) k = Some d ->
               (d >? break_threshold) = false) ->
  Replay.skip_breaks (first :: rest) break_threshold
  = Ok (map (shift #0) (firstn (S i) (first :: rest))
        ++ map (shift (#0 + g)) (skipn (S i) (first :: rest))).
Proof.
  intros H0 Hi Hg Hd. unfold Replay.skip_breaks.
  cbn [getitem Z.ltb Z.compare Z.to_nat nth_error bind]. f_equal.
  rewrite skip_loop_cons. cbv zeta. rewrite H0.
  cbn [firstn skipn map app]. f_equal.
  cbn [gaps] in Hi, Hd.
  apply skip_loop_one_break; assumption.
Qed.
End SkipBreaksAnyNumbers.

(** ** [Replay.resample] at a whole number of milliseconds *)

Section IntegerPeriod.
Context {T : Type} {N : Number T}.
Local Open Scope num_scope.
Variable bound : Z.
Hypothesis exact : exact_integers bound.
Variable period : Z.
Hypothesis Hperiod : (0 < period)%Z.

Lemma getitem_map {A B : Type} (f : A -> B) (l : list A) (i : Z) :
  getitem (map f l) i = fmap f (getitem l i).
Proof.
  unfold getitem, len. rewrite length_map.
  destruct (_ <? 0)%Z; [reflexivity|].
  rewrite nth_error_map. destruct (nth_error l _); reflexivity.
Qed.

(** The running sums of an integer step are the integers
    [t + k * period]. *)
Lemma times_exact :
  (period <= bound)%Z ->
  forall (n : nat) (t : Z),
    (- bound <= t)%Z ->
    (t + Z.of_nat n * period <= bound)%Z ->
    times #period #t n
    = map (fun k => #(t + Z.of_nat k * period)%Z) (seq 0 n)
    /\ instant #period #t n = #(t + Z.of_nat n * period)%Z.
Proof.
  intros Hp. induction n as [|n IH]; intros t Ht Hend.
  - split; [reflexivity|]. cbn [instant]. f_equal. lia.
  - assert (Hn : (0 <= Z.of_nat n * period)%Z) by nia.
    assert (Hs : (Z.of_nat (S n) * period
                  = period + Z.of_nat n * period)%Z) by lia.
    cbn [times instant seq map].
    rewrite (add_exact bound exact) by lia.
    destruct (IH (t + period)%Z) as [Htimes Hinst]; [lia|lia|].
    rewrite Htimes, Hinst. split.
    + f_equal; [f_equal; lia|].
      rewrite <- seq_shift, map_map. apply map_ext.
      intros k. f_equal. lia.
    + f_equal. lia.
Qed.

(** X28: on integer timestamps, in a number type that holds them
    exactly, and at a frequency whose period [1000 / frequency] is a
    whole number of milliseconds, [resample] returns the samples at
    [t_min], [t_min + period], [t_min + 2 * period], ... before
    [t_max]; there are [ceil ((t_max - t_min) / period)] of them. *)
Theorem resample_at_integer_period
    (trace : list (stamped T)) (first last : stamped T) (frequency : T) :
  getitem trace 0 = Ok first ->
  getitem trace (-1) = Ok last ->
  pydiv #1000 frequency = Ok #period ->
  distinct_neighbours (map as_sample trace) = true ->
  (Z.abs (tick first) <= bound)%Z ->
  (Z.abs (tick last) + period <= bound)%Z ->
  let n := Z.to_nat ((tick last - tick first + period - 1) / period) in
  exists resampled,
    (forall fuel, (n <= fuel)%nat ->
                  Replay.resample fuel (map as_sample trace) frequency
                  = Ok resampled)
    /\ List.length resampled = n
    /\ map time resampled
       = map (fun k => #(tick first + Z.of_nat k * period)%Z) (seq 0 n).
Proof.
  intros Hfirst Hlast Hstep Hgaps Hb0 Hb1 n.
  set (d := (tick last - tick first)%Z).
  pose proof (Z.div_mod (d + period - 1) period) as Hdiv.
  pose proof (Z.mod_pos_bound (d + period - 1) period Hperiod) as Hmod.
  fold d in n.
  set (q := ((d + period - 1) / period)%Z) in *.
  set (r := ((d + period - 1) mod period)%Z) in *.
  assert (Hq : (d + period - 1 = period * q + r)%Z) by (apply Hdiv; lia).
  assert (Hbelow : forall k : nat,
             (k < n)%nat -> (tick first + Z.of_nat k * period < tick last)%Z).
  { intros k Hk. unfold n in Hk. nia. }
  assert (Hend : (tick last <= tick first + Z.of_nat n * period)%Z).
  { unfold n. destruct (Z.le_gt_cases q 0) as [Hle|Hgt].
    - replace (Z.to_nat q) with 0%nat by lia. nia.
    - rewrite Z2Nat.id by lia. nia. }
  assert (Hrange : (tick first + Z.of_nat n * period <= bound)%Z).
  { destruct n as [|m] eqn:En; [lia|].
    specialize (Hbelow m (Nat.lt_succ_diag_r m)). lia. }
  destruct (times_exact ltac:(lia) n (tick first) ltac:(lia) Hrange)
    as [Htimes Hinst].
  assert (Hf : getitem (map as_sample trace) 0 = Ok (as_sample first))
    by (rewrite getitem_map, Hfirst; reflexivity).
  assert (Hl : getitem (map as_sample trace) (-1) = Ok (as_sample last))
    by (rewrite getitem_map, Hlast; reflexivity).
  assert (Hi : (0 < List.length (map as_sample trace))%nat).
  { destruct (proj1 (getitem_0 _ _) Hf) as [l ->]. simpl. lia. }
  destruct (resample_loop_instants (map as_sample trace) frequency #period
              (as_sample last) Hl Hstep Hgaps n 0%nat #(tick first) Hi)
    as (out & Hout & Hrun).
  - rewrite Htimes. apply forallb_forall. intros t Ht.
    apply in_map_iff in Ht as (k & <- & Hk). apply in_seq in Hk.
    specialize (Hbelow k ltac:(lia)).
    unfold precedes. change (time (as_sample last)) with #(tick last).
    rewrite !(ltb_exact bound exact) by nia.
    apply andb_true_iff. split; [apply Z.ltb_lt; lia|].
    apply negb_true_iff, Z.ltb_ge. lia.
  - rewrite Hinst. change (time (as_sample last)) with #(tick last).
    rewrite (ltb_exact bound exact) by nia. apply Z.ltb_ge. exact Hend.
  - exists out. split; [|split].
    + intros fuel Hfuel. unfold Replay.resample.
      rewrite Hf, Hl. cbn [bind]. apply (Hrun fuel [] Hfuel).
    + rewrite <- (length_map time), Hout, Htimes, length_map.
      apply length_seq.
    + rewrite Hout. exact Htimes.
Qed.
End IntegerPeriod.

(** ** The properties at concrete inputs *)

(** Decide an order between two given rationals. *)
Ltac qc_decide := vm_compute; first [reflexivity | discriminate].

Lemma interpolate_lengths_witness :
  (List.length [pt 0 0 0] <= List.length [pt 0 0 0; pt 20 20 0]
   <= S (List.length [pt 0 0 0]))%nat
  /\ (List.length [pt 0 0 0; pt 20 20 0]
      <= Nat.min (List.length scenario_A) (List.length scenario_B))%nat.
Proof.
  apply (interpolate_lengths scenario_A scenario_B
           [pt 0 0 0; pt 20 20 0] [pt 0 0 0] Interpolation.linear).
  qc_eval.
Defined.

Lemma clean_is_a_run_of_an_input_witness :
  exists before after,
    scenario_A = before ++ [pt 0 0 0; pt 20 20 0] ++ after
    \/ scenario_B = before ++ [pt 0 0 0; pt 20 20 0] ++ after.
Proof.
  apply (clean_is_a_run_of_an_input scenario_A scenario_B
           [pt 0 0 0; pt 20 20 0] [pt 0 0 0] Interpolation.linear).
  qc_eval.
Defined.

Lemma interpolated_keeps_clean_timestamps_witness :
  map time [pt 0 0 0]
  = firstn (List.length [pt 0 0 0]) (map time [pt 0 0 0; pt 20 20 0]).
Proof.
  apply (interpolated_keeps_clean_timestamps scenario_A scenario_B
           [pt 0 0 0; pt 20 20 0] [pt 0 0 0] Interpolation.linear).
  qc_eval.
Defined.

Lemma interpolated_bounded_of_bounded_witness :
  Forall (fun p => within_bounds (coords p)) [pt 0 0 0].
Proof.
  apply (interpolated_bounded_of_bounded scenario_A scenario_B
           [pt 0 0 0; pt 20 20 0] [pt 0 0 0] Interpolation.linear).
  - repeat constructor.
  - qc_eval.
Defined.

Lemma interpolate_self_witness :
  Replay.interpolate early_trace early_trace Interpolation.linear false
  = Ok (early_trace, removelast early_trace).
Proof.
  apply (interpolate_self early_trace false).
  - repeat constructor.
  - simpl. lia.
Defined.

Lemma resample_of_no_span_witness :
  Replay.resample 0 [pt 5 1 2] (num 0) = Ok [].
Proof.
  apply (resample_of_no_span [pt 5 1 2] (num 0) (pt 5 1 2) (pt 5 1 2) 0);
    reflexivity.
Defined.

Lemma resample_at_zero_frequency_witness :
  Replay.resample 1 [pt 0 0 0; pt 15 15 0] (num 0)
  = Raise ZeroDivisionError.
Proof.
  apply (resample_at_zero_frequency [pt 0 0 0; pt 15 15 0]
           (pt 0 0 0) (pt 15 15 0)); reflexivity.
Defined.

Lemma resample_at_negative_frequency_witness :
  Replay.resample 7 [pt 0 0 0; pt 15 15 0] (num (-100)) = Diverge.
Proof.
  apply (resample_at_negative_frequency [pt 0 0 0; pt 15 15 0]
           (pt 0 0 0) (pt 15 15 0)); reflexivity.
Defined.

Lemma resample_starts_at_first_sample_witness :
  exists (resampled : list (sample Qc)) (n : nat),
    forall fuel, (n <= fuel)%nat ->
      Replay.resample fuel [pt 0 0 0; pt 15 15 0] (num 100)
      = Ok (pt 0 0 0 :: resampled).
Proof.
  apply (resample_starts_at_first_sample [pt 0 0 0; pt 15 15 0]
           (pt 0 0 0) (pt 15 15 0)); reflexivity.
Defined.

Lemma skip_breaks_keeps_samples_witness :
  Replay.skip_breaks (@nil (sample Qc)) (num 1000) = Raise IndexError
  /\ exists skipped,
      Replay.skip_breaks paused_trace (num 1000) = Ok skipped
      /\ List.length skipped = List.length paused_trace
      /\ map coords skipped = map coords paused_trace.
Proof.
  split.
  - apply (skip_breaks_keeps_samples (@nil (sample Qc)) (num 1000)).
    reflexivity.
  - apply (skip_breaks_keeps_samples paused_trace (num 1000)).
    discriminate.
Defined.

(** Decide that given integers are in order and within a bound. *)
Ltac in_range := repeat constructor; vm_compute; discriminate.

Lemma skip_breaks_collapses_breaks_witness :
  exists skipped,
    Replay.skip_breaks (map as_sample paused_ticks) (of_Z 1000)
    = Ok (map as_sample skipped)
    /\ hd_error skipped = hd_error paused_ticks
    /\ tick_gaps skipped = map (collapse 1000) (tick_gaps paused_ticks).
Proof.
  apply (skip_breaks_collapses_breaks (2 ^ 53) (Qc_exact_integers (2 ^ 53))
           paused_ticks 1000); [discriminate|in_range..].
Defined.

Lemma skip_breaks_leaves_no_break_witness :
  exists skipped,
    Replay.skip_breaks (map as_sample paused_ticks) (of_Z 1000)
    = Ok (map as_sample skipped)
    /\ Forall (fun d => (d <= 1000)%Z) (tick_gaps skipped).
Proof.
  apply (skip_breaks_leaves_no_break (2 ^ 53) (Qc_exact_integers (2 ^ 53))
           paused_ticks 1000); [discriminate|in_range..].
Defined.

Lemma skip_breaks_idempotent_witness :
  exists skipped,
    Replay.skip_breaks (map as_sample paused_ticks) (of_Z 1000)
    = Ok (map as_sample skipped)
    /\ Replay.skip_breaks (map as_sample skipped) (of_Z 1000)
       = Ok (map as_sample skipped).
Proof.
  apply (skip_breaks_idempotent (2 ^ 53) (Qc_exact_integers (2 ^ 53))
           paused_ticks 1000); [discriminate|in_range..].
Defined.

Lemma skip_breaks_keeps_time_order_witness :
  exists skipped,
    Replay.skip_breaks (map as_sample paused_ticks) (of_Z 1000)
    = Ok (map as_sample skipped)
    /\ ticks_ordered skipped.
Proof.
  apply (skip_breaks_keeps_time_order (2 ^ 53) (Qc_exact_integers (2 ^ 53))
           paused_ticks 1000); [discriminate|in_range..].
Defined.

Lemma skip_breaks_subtracts_the_break_witness :
  Replay.skip_breaks offset_trace 1%float
  = Ok (map (shift (of_Z 0)) (firstn 1 offset_trace)
        ++ map (shift (add (of_Z 0) (2 - 0x1.999999999999ap-3)%float))
             (skipn 1 offset_trace)).
Proof.
  apply (skip_breaks_subtracts_the_break
           (fpt 0x1.999999999999ap-3 0 0) [fpt 2 0 0; fpt 3 0 0; fpt 4 0 0]
           1%float (2 - 0x1.999999999999ap-3)%float 0).
  - reflexivity.
  - reflexivity.
  - reflexivity.
  - intros [|[|[|k]]] d Hne Hk; try congruence;
      try (injection Hk as <-; reflexivity).
    destruct k; discriminate Hk.
Defined.

Lemma resample_at_integer_period_witness :
  exists resampled,
    (forall fuel, (2 <= fuel)%nat ->
                  Replay.resample fuel
                    (map as_sample
                       [(0%Z, num 0, num 0); (15%Z, num 15, num 0)])
                    (num 100)
                  = Ok resampled)
    /\ List.length resampled = 2%nat
    /\ map time resampled = [num 0; num 10].
Proof.
  apply (resample_at_integer_period (2 ^ 53) (Qc_exact_integers (2 ^ 53))
           10 eq_refl [(0%Z, num 0, num 0); (15%Z, num 15, num 0)]
           (0%Z, num 0, num 0) (15%Z, num 15, num 0) (num 100)).
  - reflexivity.
  - reflexivity.
  - qc_eval.
  - reflexivity.
  - vm_compute. discriminate.
  - vm_compute. discriminate.
Defined.

Lemma as_list_with_timestamps_sorts_witness :
  exists txy,
    Replay.as_list_with_timestamps carol = Ok (map as_sample txy)
    /\ Permutation txy (stamped_events (Replay.play_data carol))
    /\ ticks_ordered txy
    /\ List.length txy = List.length (Replay.play_data carol).
Proof.
  apply (as_list_with_timestamps_sorts carol).
  repeat (constructor; [split; vm_compute; [discriminate|reflexivity]|]).
  constructor.
Defined.

Lemma as_list_of_forward_replay_witness :
  Replay.as_list_with_timestamps carol
  = Ok (map as_sample (stamped_events (Replay.play_data carol)))
  /\ forall k e,
      nth_error (Replay.play_data carol) k = Some e ->
      nth_error (stamped_events (Replay.play_data carol)) k
      = Some (elapsed (firstn (S k) (Replay.play_data carol)),
              Replay.x e, Replay.y e).
Proof.
  apply (as_list_of_forward_replay carol).
  - repeat (constructor; [split; vm_compute; [discriminate|reflexivity]|]).
    constructor.
  - repeat (constructor; [vm_compute; discriminate|]). constructor.
  - reflexivity.
Defined.

Lemma compare_replay_with_itself_witness :
  Comparer._compare_two_replays rational_sqrt carol carol
  = Ok (num 0, num 0).
Proof.
  apply (compare_replay_with_itself rational_sqrt carol
           [pt 0 0 0; pt 10 10 0; pt 20 20 0]).
  - apply Qc_decomp. reflexivity.
  - qc_eval.
  - repeat constructor.
  - simpl. lia.
Defined.

Lemma compare_rejects_bad_calls_witness :
  Comparer.compare rational_sqrt [] (fun _ _ => Ok tt) (num 5)
    [carol; dave] None "triple"
  = ([], Comparer.Uncaught
           (Comparer.Exception
              "`mode` must be one of 'double' or 'single'")).
Proof.
  apply (compare_rejects_bad_calls rational_sqrt [] (fun _ _ => Ok tt)
           (num 5) [carol; dave] None "triple"); discriminate.
Defined.

Lemma compare_skips_trusted_witness :
  Comparer.compare rational_sqrt ["carol"; "dave"]%string
    (fun _ _ => Ok tt) (num 5) [carol] (Some [dave]) "double"
  = ([Comparer.Banner
        "comparing first set of replays to second set of replays"],
     Comparer.Returned)
  /\ Comparer.compare rational_sqrt ["carol"; "dave"]%string
       (fun _ _ => Ok tt) (num 5) [carol] None "single"
     = ([Comparer.Banner "comparing first set of replays to itself"],
        Comparer.Returned).
Proof.
  apply (compare_skips_trusted rational_sqrt ["carol"; "dave"]%string
           (fun _ _ => Ok tt) (num 5) [carol] [dave]).
  intros replay [<-|[<-|[]]]; reflexivity.
Defined.

Lemma compare_prints_only_close_pairs_witness :
  exists replay1 replay2 mean sigma,
    In replay1 [carol; dave]
    /\ (In replay2 [carol; dave]
        \/ exists l, @None (list (Replay.Replay Qc)) = Some l
                     /\ In replay2 l)
    /\ Replay.player_name replay1 <> Replay.player_name replay2
    /\ (Comparer.whitelisted [] (Replay.player_name replay1) = false
        \/ Comparer.whitelisted [] (Replay.player_name replay2) = false)
    /\ Comparer._compare_two_replays rational_sqrt replay1 replay2
       = Ok (mean, sigma)
    /\ ltb (num 5) mean = false
    /\ (num 0, num 0, "carol"%string, "dave"%string)
       = (mean, sigma, Replay.player_name replay1,
          Replay.player_name replay2).
Proof.
  apply (compare_prints_only_close_pairs rational_sqrt []
           (fun _ _ => Ok tt) (num 5) [carol; dave] None "single"
           (num 0, num 0, "carol"%string, "dave"%string)).
  vm_compute. right. left. qc_eval.
Defined.

Lemma as_time_space_rows_witness :
  Investigator.as_time_space alice = Raise IndexError
  /\ exists t xs ys,
      Investigator.as_time_space carol = Ok (t, [xs; ys])
      /\ List.length t = List.length (Replay.play_data carol)
      /\ List.length xs = List.length (Replay.play_data carol)
      /\ List.length ys = List.length (Replay.play_data carol)
      /\ Sorted (fun a b => Qcle a b) t.
Proof.
  split.
  - apply (as_time_space_rows alice). reflexivity.
  - apply (as_time_space_rows carol). discriminate.
Defined.
